(** * dmsg: sessions, streams and the relay

    A shallow embedding of [stream.go] (the dmsg [Stream] and its dial
    handshake) and of [session.go] (session bring-up, the server-side relay
    [handleServerStream]/[forwardRequest], [Session.Close]).

    Go pointers are handles into explicit stores, Go functions that mutate
    their receiver are state transformers over one process state [Proc], and a
    Go [error] result is the [Fail] outcome of the monad [Go]. *)

From stdpp Require Import gmap strings list.
From Stdlib Require Import ZArith Lia.

Open Scope Z_scope.

(** ** Keys, addresses and wire records *)

(** [cipher.PubKey] and [cipher.SecKey] are fixed-size byte arrays compared by
    content; a key is the integer its bytes spell. *)
Definition PubKey := Z.
Definition SecKey := Z.
Definition bytes := list Byte.byte.

Record Addr := mkAddr { PK : PubKey; Port : Z }.

Record StreamDialRequest := mkReq {
  Timestamp : Z;
  SrcAddr : Addr;
  DstAddr : Addr;
  NoiseMsg : bytes;
  Sig : Z
}.

Record StreamDialResponse := mkResp {
  ReqHash : Z;
  Accepted : bool;
  RespNoiseMsg : bytes;
  RespSig : Z
}.

(** A record of either kind, as the codec carries it. *)
Inductive Record_ :=
| RReq (r : StreamDialRequest)
| RResp (r : StreamDialResponse).

Global Instance Addr_eq_dec : EqDecision Addr.
Proof. solve_decision. Defined.

(** ** Errors *)

Inductive error :=
| ErrReqInvalidTimestamp
| ErrReqInvalidDstPK
| ErrReqInvalidSrcPK
| ErrReqNoSession
| ErrReqNoListener
| ErrInvalidTimestamp
| ErrInvalidSignature
| ErrRequestHashMismatch
| ErrRejected
| ErrNoFreePort
| ErrListenerClosed
| ErrBusyListener
| ErrStreamClosed
| ErrSessionShutdown
| ErrEOF
| ErrDecryptFailed
| ErrDecodeFailed
| ErrNoise (code : Z)
| ErrNew (msg : string).

(** [errors.New("bufio reader should be empty after session handshake")]:
    the error the spec calls HandshakeResidue. *)
Definition HandshakeResidue : error :=
  ErrNew "bufio reader should be empty after session handshake".

(** ** External collaborators

    The noise handshake states, the digest and the signature scheme are
    libraries the session and stream code calls; the development is
    parametric in them. *)

Inductive Pattern := HandshakeXK | HandshakeKK.

Record Config := mkConfig {
  LocalPK : PubKey;
  LocalSK : SecKey;
  RemotePK : PubKey;
  Initiator : bool
}.

(** [bufio.Reader]: the bytes read from the connection and not yet consumed. *)
Record BufReader := mkBuf { br_buf : bytes }.

Definition Buffered (r : BufReader) : Z := Z.of_nat (length (br_buf r)).

(** [net.Conn]: the bytes still to be read from the peer and the bytes written
    to it. *)
Record Conn := mkConn { c_rx : bytes; c_tx : bytes }.

Class Collaborators := {
  Noise : Type;
  (** [noise.New(pattern, config)] *)
  noise_New : Pattern -> Config -> error + Noise;
  (** [ns.MakeHandshakeMessage()]; the handshake state advances. *)
  MakeHandshakeMessage : Noise -> (error + bytes) * Noise;
  (** [ns.ProcessHandshakeMessage(msg)] *)
  ProcessHandshakeMessage : Noise -> bytes -> option error * Noise;
  (** [ns.RemoteStatic()] *)
  RemoteStatic : Noise -> PubKey;
  (** The symmetric key a finished session handshake leaves in [ns], and the
      bytes of a record sealed under a key. *)
  session_key : Noise -> Z;
  seal : Z -> Record_ -> bytes;
  (** [noise.InitiatorHandshake(ns, r, conn)], [noise.ResponderHandshake]:
      read through the buffered reader [r], write to [conn]. *)
  InitiatorHandshake :
    Noise -> BufReader -> Conn -> option error * (Noise * BufReader * Conn);
  ResponderHandshake :
    Noise -> BufReader -> Conn -> option error * (Noise * BufReader * Conn);
  (** Digest of the signed fields of a request and of a response. *)
  digest_req : Z -> Addr -> Addr -> bytes -> Z;
  digest_resp : Z -> bool -> bytes -> Z;
  (** [cipher.SignPayload] and [cipher.VerifyPubKeySignedPayload]. *)
  sign_payload : SecKey -> Z -> Z;
  verify_payload : PubKey -> Z -> Z -> bool
}.

(** ** The porter *)

(** What a port is bound to: [PortValue] returns an [interface{}] that the
    caller type-switches on ([*Listener] or [*Stream]).  A [*Stream] is named
    by the handle of the sub-stream it wraps. *)
Inductive Entity := EListener (l : nat) | EStream (s : nat).

(** The [func()] returned by [ReserveEphemeral], defunctionalised: the port it
    frees and the once-flag it is guarded by. *)
Record Freer := mkFreer { fr_port : Z; fr_once : nat }.

Record Porter := mkPorter {
  ports : gmap Z Entity;
  fired : gset nat;
  next_once : nat
}.

Definition minEph : Z := 49152.
Definition maxPort : Z := 65535.

(** Modelled from the spec: the ephemeral range of [netutil.Porter] is
    [49152, 65535]; the port [k] places after [p] in it, wrapping around. *)
Definition port_after (p k : Z) : Z := minEph + (p - minEph + k) mod 16384.

(** Modelled from the spec: the allocation of [netutil.Porter], which is not
    among the sources, probes sequentially.  [probe m p d] tries the [2^d]
    ports from [p] on, in increasing order (wrapping around): the first half
    of the sweep, then the second half. *)
Fixpoint probe (m : gmap Z Entity) (p : Z) (d : nat) : option Z :=
  match d with
  | O => match m !! p with
         | None => Some p
         | Some _ => None
         end
  | S d' => match probe m p d' with
            | Some q => Some q
            | None => probe m (port_after p (2 ^ Z.of_nat d')) d'
            end
  end.

(** A full sweep is [2^14 = 16384] ports. *)
Definition sweep : nat := 14.

(** Modelled from the spec: [netutil.Porter] is not among the sources.
    [ReserveEphemeral] picks an unused port in [49152, 65535], starting from a
    random offset [seed] and probing sequentially, fails with NoFreePort after
    a full sweep, and returns a release handle with a once-flag of its own,
    not yet fired. *)
Definition ReserveEphemeral (seed : Z) (v : Entity) (p : Porter)
  : (error + Z * Freer) * Porter :=
  match probe (ports p) (minEph + seed mod 16384) sweep with
  | None => (inl ErrNoFreePort, p)
  | Some q =>
      (inr (q, mkFreer q (next_once p)),
       mkPorter (<[q := v]> (ports p)) (fired p ∖ {[next_once p]})
                (S (next_once p)))
  end.

(** Modelled from the spec: the release handle removes the mapping exactly
    once and is idempotent on repeated calls. *)
Definition release (f : Freer) (p : Porter) : Porter :=
  if decide (fr_once f ∈ fired p) then p
  else mkPorter (delete (fr_port f) (ports p)) ({[fr_once f]} ∪ fired p)
                (next_once p).

(** Modelled from the spec: [Lookup(port)], called [PortValue] in the code. *)
Definition PortValue (port : Z) (p : Porter) : option Entity := ports p !! port.

(** Modelled from the spec: a listener is a bounded inbox of incoming streams
    and a closed flag ([listener.go] is not among the sources). *)
Record Listener := mkListener {
  l_inbox : list nat;
  l_cap : nat;
  l_closed : bool
}.

(** ** The multiplexer (yamux), as far as the sessions use it *)

(** What travels on a sub-stream: a record sealed by the framed codec under a
    session key, or bytes written as they are. *)
Inductive Chunk :=
| CSealed (key : Z) (r : Record_)
| CRaw (b : bytes).

Record YStream := mkYStream {
  y_rx : list Chunk;
  y_tx : list Chunk;
  y_closed : bool
}.

Record YSession := mkYSession {
  ysn_conn : nat;
  ysn_client : bool;
  ysn_streams : list nat;
  ysn_backlog : list nat;
  ysn_goaway : bool;
  ysn_shutdown : bool
}.

Inductive Event :=
| EvFree (f : Freer)
| EvYClose (h : nat).

(** The result of a Go call: a value, a returned [error], or a panic. *)
Inductive Outcome (A : Type) :=
| Ok (a : A)
| Fail (e : error)
| Panic (msg : string).
Arguments Ok {A} a.
Arguments Fail {A} e.
Arguments Panic {A} msg.

Section Dmsg.
Context `{Collaborators}.

(** ** Sessions and streams *)

(** [Session] of [session.go]; the [ClientSession] that [stream.go] refers to
    is this record in its client role.  [ys] is the handle of the yamux
    session; the porter (client) and the session getter (server) are shared
    objects and live in the process state. *)
Record Session := mkSession {
  lPK : PubKey;
  lSK : SecKey;
  rPK : PubKey;
  ys : nat;
  ns : Noise
}.

(** [Stream] of [stream.go].  The fields after [yStr] are filled by the
    handshake; [None] is Go's nil.  [ses] is the session the stream belongs
    to, [nsConn] the [noise.ReadWriter] over the sub-stream [yStr]; the logger
    [log] is left out. *)
Record Stream := mkStream {
  ses : Session;
  yStr : nat;
  lAddr : Addr;
  rAddr : Addr;
  s_ns : option Noise;
  nsConn : option nat;
  close : option Freer
}.

Record Proc := mkProc {
  porter : Porter;
  listeners : gmap nat Listener;
  getter : PubKey -> option Session;
  conns : gmap nat Conn;
  ysessions : gmap nat YSession;
  ystreams : gmap nat YStream;
  streams : gmap nat Stream;
  (** what the remote end sends on a sub-stream this side opens *)
  inbound : nat -> list Chunk;
  next_handle : nat;
  clock : Z;
  rand : Z;
  trace : list Event
}.

Definition set_porter (p : Porter) (st : Proc) : Proc :=
  mkProc p (listeners st) (getter st) (conns st) (ysessions st) (ystreams st)
         (streams st) (inbound st) (next_handle st) (clock st) (rand st) (trace st).
Definition set_listeners (l : gmap nat Listener) (st : Proc) : Proc :=
  mkProc (porter st) l (getter st) (conns st) (ysessions st) (ystreams st)
         (streams st) (inbound st) (next_handle st) (clock st) (rand st) (trace st).
Definition set_conns (c : gmap nat Conn) (st : Proc) : Proc :=
  mkProc (porter st) (listeners st) (getter st) c (ysessions st) (ystreams st)
         (streams st) (inbound st) (next_handle st) (clock st) (rand st) (trace st).
Definition set_ysessions (y : gmap nat YSession) (st : Proc) : Proc :=
  mkProc (porter st) (listeners st) (getter st) (conns st) y (ystreams st)
         (streams st) (inbound st) (next_handle st) (clock st) (rand st) (trace st).
Definition set_ystreams (y : gmap nat YStream) (st : Proc) : Proc :=
  mkProc (porter st) (listeners st) (getter st) (conns st) (ysessions st) y
         (streams st) (inbound st) (next_handle st) (clock st) (rand st) (trace st).
Definition set_streams (s : gmap nat Stream) (st : Proc) : Proc :=
  mkProc (porter st) (listeners st) (getter st) (conns st) (ysessions st)
         (ystreams st) s (inbound st) (next_handle st) (clock st) (rand st) (trace st).
Definition set_next_handle (n : nat) (st : Proc) : Proc :=
  mkProc (porter st) (listeners st) (getter st) (conns st) (ysessions st)
         (ystreams st) (streams st) (inbound st) n (clock st) (rand st) (trace st).
Definition log_event (e : Event) (st : Proc) : Proc :=
  mkProc (porter st) (listeners st) (getter st) (conns st) (ysessions st)
         (ystreams st) (streams st) (inbound st) (next_handle st) (clock st)
         (rand st) (trace st ++ [e]).

(** ** The monad of Go code: state, errors and panics *)

Definition Go (A : Type) : Type := Proc -> Outcome A * Proc.

Definition ret {A} (a : A) : Go A := fun st => (Ok a, st).
Definition fail {A} (e : error) : Go A := fun st => (Fail e, st).
Definition panic {A} (msg : string) : Go A := fun st => (Panic msg, st).

Definition bind {A B} (m : Go A) (k : A -> Go B) : Go B :=
  fun st =>
    match m st with
    | (Ok a, st') => k a st'
    | (Fail e, st') => (Fail e, st')
    | (Panic msg, st') => (Panic msg, st')
    end.

(** [err := f(); if err != nil { ... }]: the error as a value. *)
Definition try {A} (m : Go A) : Go (error + A) :=
  fun st =>
    match m st with
    | (Ok a, st') => (Ok (inr a), st')
    | (Fail e, st') => (Ok (inl e), st')
    | (Panic msg, st') => (Panic msg, st')
    end.

Definition gets {A} (f : Proc -> A) : Go A := fun st => (Ok (f st), st).
Definition modify (f : Proc -> Proc) : Go unit := fun st => (Ok tt, f st).

(** Dereference of a handle; a nil or dangling pointer panics. *)
Definition deref {A} (o : option A) : Go A :=
  match o with
  | Some a => ret a
  | None => panic "invalid memory address or nil pointer dereference"
  end.

Notation "'let*' x ':=' m 'in' k" := (bind m (fun x => k))
  (at level 61, x name, m at next level, k at level 200).
Notation "m1 '>>' m2" := (bind m1 (fun _ => m2))
  (at level 61, m2 at level 200).

Definition load {A} (f : Proc -> option A) : Go A := fun st => deref (f st) st.

(** ** yamux sessions and sub-streams *)

Definition put_ystream (h : nat) (y : YStream) : Go unit :=
  modify (fun st => set_ystreams (<[h := y]> (ystreams st)) st).

Definition put_ysession (i : nat) (sn : YSession) : Go unit :=
  modify (fun st => set_ysessions (<[i := sn]> (ysessions st)) st).

(** [ys.OpenStream()] *)
Definition OpenStream (i : nat) : Go nat :=
  let* sn := load (fun st => ysessions st !! i) in
  if ysn_shutdown sn then fail ErrSessionShutdown
  else
    let* h := gets next_handle in
    let* rx := gets (fun st => inbound st h) in
    put_ystream h (mkYStream rx [] false) >>
    put_ysession i (mkYSession (ysn_conn sn) (ysn_client sn) (ysn_streams sn ++ [h])
                               (ysn_backlog sn) (ysn_goaway sn) false) >>
    modify (set_next_handle (S h)) >>
    ret h.

(** [ys.AcceptStream()]: the next sub-stream the peer opened; an error once
    the session is shut down or nothing more arrives. *)
Definition AcceptStream (i : nat) : Go nat :=
  let* sn := load (fun st => ysessions st !! i) in
  if ysn_shutdown sn then fail ErrSessionShutdown
  else match ysn_backlog sn with
       | [] => fail ErrSessionShutdown
       | h :: rest =>
           put_ysession i (mkYSession (ysn_conn sn) (ysn_client sn)
                                      (ysn_streams sn ++ [h]) rest
                                      (ysn_goaway sn) false) >>
           ret h
       end.

(** The bytes of a chunk on the wire. *)
Definition wire (c : Chunk) : bytes :=
  match c with
  | CRaw b => b
  | CSealed k r => seal k r
  end.

(** [yStr.Close()] *)
Definition yClose (h : nat) : Go unit :=
  let* y := load (fun st => ystreams st !! h) in
  put_ystream h (mkYStream (y_rx y) (y_tx y) true) >>
  modify (log_event (EvYClose h)).

(** [yStr.Write(b)] *)
Definition yWrite (h : nat) (b : bytes) : Go nat :=
  let* y := load (fun st => ystreams st !! h) in
  if y_closed y then fail ErrStreamClosed
  else put_ystream h (mkYStream (y_rx y) (y_tx y ++ [CRaw b]) false) >>
       ret (length b).

(** [yStr.Read(b)] with [len(b) = n]: at most [n] of the bytes at the head
    of the sub-stream. *)
Definition yRead (h : nat) (n : nat) : Go bytes :=
  let* y := load (fun st => ystreams st !! h) in
  if y_closed y then fail ErrStreamClosed
  else match y_rx y with
       | c :: rest =>
           let b := wire c in
           put_ystream h (mkYStream (if decide (drop n b = []) then rest
                                     else CRaw (drop n b) :: rest)
                                    (y_tx y) false) >>
           ret (take n b)
       | [] => fail ErrEOF
       end.

Definition close_all (hs : list nat) (m : gmap nat YStream) : gmap nat YStream :=
  foldr (fun h acc => alter (fun y => mkYStream (y_rx y) (y_tx y) true) h acc) m hs.

(** [ys.GoAway()] *)
Definition GoAway (i : nat) : Go unit :=
  let* sn := load (fun st => ysessions st !! i) in
  put_ysession i (mkYSession (ysn_conn sn) (ysn_client sn) (ysn_streams sn)
                             (ysn_backlog sn) true (ysn_shutdown sn)).

(** [ys.Close()]: shuts the session down and closes every sub-stream of it. *)
Definition ysClose (i : nat) : Go unit :=
  let* sn := load (fun st => ysessions st !! i) in
  put_ysession i (mkYSession (ysn_conn sn) (ysn_client sn) (ysn_streams sn)
                             (ysn_backlog sn) (ysn_goaway sn) true) >>
  modify (fun st => set_ystreams (close_all (ysn_streams sn) (ystreams st)) st).

(** ** The framed codec of a session *)

(** Modelled from the spec: [writeEncryptedGob] is not among the sources.  It
    serialises the record, encrypts it with the session cipher and writes the
    frame to the sub-stream. *)
Definition writeEncryptedGob (h : nat) (n : Noise) (r : Record_) : Go unit :=
  let* y := load (fun st => ystreams st !! h) in
  if y_closed y then fail ErrStreamClosed
  else put_ystream h (mkYStream (y_rx y) (y_tx y ++ [CSealed (session_key n) r]) false).

(** Modelled from the spec: [readEncryptedGob] is not among the sources.  It
    reads one frame and decrypts it with the session cipher (DecryptFailed
    under another key); bytes that are no sealed record do not decode. *)
Definition readEncryptedGob (h : nat) (n : Noise) : Go Record_ :=
  let* y := load (fun st => ystreams st !! h) in
  if y_closed y then fail ErrStreamClosed
  else match y_rx y with
       | [] => fail ErrEOF
       | c :: rest =>
           put_ystream h (mkYStream rest (y_tx y) false) >>
           match c with
           | CSealed k r => if k =? session_key n then ret r else fail ErrDecryptFailed
           | CRaw _ => fail ErrDecodeFailed
           end
       end.

(** [readEncryptedGob(yStr, ns, &req)] with [req] a [StreamDialRequest]. *)
Definition readReqGob (h : nat) (n : Noise) : Go StreamDialRequest :=
  let* r := readEncryptedGob h n in
  match r with
  | RReq q => ret q
  | RResp _ => fail ErrDecodeFailed
  end.

(** [readEncryptedGob(yStr, ns, &resp)] with [resp] a [StreamDialResponse]. *)
Definition readRespGob (h : nat) (n : Noise) : Go StreamDialResponse :=
  let* r := readEncryptedGob h n in
  match r with
  | RResp q => ret q
  | RReq _ => fail ErrDecodeFailed
  end.

(** ** Signing and verifying the records *)

(** Modelled from the spec: [Hash()] is a deterministic digest of the signed
    fields of the request, the signature excluded. *)
Definition Hash (req : StreamDialRequest) : Z :=
  digest_req (Timestamp req) (SrcAddr req) (DstAddr req) (NoiseMsg req).

(** Modelled from the spec: [req.Sign(sk)] signs the fields before the
    signature. *)
Definition Sign (sk : SecKey) (req : StreamDialRequest) : StreamDialRequest :=
  mkReq (Timestamp req) (SrcAddr req) (DstAddr req) (NoiseMsg req)
        (sign_payload sk (Hash req)).

Definition freshness : Z := 30 * 1000000000.

(** Modelled from the spec: [StreamDialRequest.Verify] is not among the
    sources.  The request is accepted when its timestamp is within 30 s of
    now and its signature is valid under [SrcAddr.PK]; the argument the
    callers pass (a last-seen timestamp, always 0) is not used. *)
Definition Verify (now : Z) (req : StreamDialRequest) (last : Z) : option error :=
  if negb (Z.abs (now - Timestamp req) <=? freshness) then Some ErrInvalidTimestamp
  else if negb (verify_payload (PK (SrcAddr req)) (Sig req) (Hash req))
       then Some ErrInvalidSignature
       else None.

Definition RespDigest (resp : StreamDialResponse) : Z :=
  digest_resp (ReqHash resp) (Accepted resp) (RespNoiseMsg resp).

(** Modelled from the spec: [resp.Sign(sk)]. *)
Definition SignResp (sk : SecKey) (resp : StreamDialResponse) : StreamDialResponse :=
  mkResp (ReqHash resp) (Accepted resp) (RespNoiseMsg resp)
         (sign_payload sk (RespDigest resp)).

(** Modelled from the spec: [StreamDialResponse.Verify] is not among the
    sources.  It verifies [RequestHash == request.Hash()], the signature under
    the destination key, and [Accepted = true]. *)
Definition VerifyResp (resp : StreamDialResponse) (reqDstPK : PubKey) (reqHash : Z)
  : option error :=
  if negb (ReqHash resp =? reqHash) then Some ErrRequestHashMismatch
  else if negb (verify_payload reqDstPK (RespSig resp) (RespDigest resp))
       then Some ErrInvalidSignature
       else if negb (Accepted resp) then Some ErrRejected
            else None.

(** ** [stream.go] *)

Definition zeroAddr : Addr := mkAddr 0 0.

Definition put_stream (p : nat) (s : Stream) : Go unit :=
  modify (fun st => set_streams (<[p := s]> (streams st)) st).

Definition set_close (p : nat) (c : option Freer) : Go unit :=
  let* s := load (fun st => streams st !! p) in
  put_stream p (mkStream (ses s) (yStr s) (lAddr s) (rAddr s) (s_ns s) (nsConn s) c).

Definition set_ns (p : nat) (n : Noise) : Go unit :=
  let* s := load (fun st => streams st !! p) in
  put_stream p (mkStream (ses s) (yStr s) (lAddr s) (rAddr s) (Some n) (nsConn s) (close s)).

(** [newInitiatingStream]: [&Stream{ses: cSes, yStr: yStr}]. *)
Definition newInitiatingStream (cSes : Session) : Go nat :=
  let* h := OpenStream (ys cSes) in
  put_stream h (mkStream cSes h zeroAddr zeroAddr None None None) >>
  ret h.

(** [newRespondingStream] *)
Definition newRespondingStream (cSes : Session) : Go nat :=
  let* h := AcceptStream (ys cSes) in
  put_stream h (mkStream cSes h zeroAddr zeroAddr None None None) >>
  ret h.

(** The call [s.close()] of the stored closure. *)
Definition call_close (f : Freer) : Go unit :=
  modify (fun st => log_event (EvFree f) (set_porter (release f (porter st)) st)).

(** [Stream.Close]; the receiver may be nil. *)
Definition Close (sp : option nat) : Go unit :=
  match sp with
  | None => ret tt
  | Some p =>
      let* s := load (fun st => streams st !! p) in
      match close s with
      | Some f => call_close f
      | None => ret tt
      end >>
      yClose (yStr s)
  end.

(** [Stream.prepareFields]; a failing [noise.New] panics. *)
Definition prepareFields (p : nat) (init : bool) (la ra : Addr) : Go unit :=
  let* s := load (fun st => streams st !! p) in
  match noise_New HandshakeKK
          (mkConfig (lPK (ses s)) (lSK (ses s)) (PK ra) init) with
  | inl _ => panic "Failed to prepare stream noise object."
  | inr n =>
      put_stream p (mkStream (ses s) (yStr s) la ra (Some n) (Some (yStr s)) (close s))
  end.

(** [s.ns.MakeHandshakeMessage()] on the stream's noise state. *)
Definition makeHandshakeMessage (p : nat) : Go bytes :=
  let* s := load (fun st => streams st !! p) in
  let* n := deref (s_ns s) in
  set_ns p (snd (MakeHandshakeMessage n)) >>
  match fst (MakeHandshakeMessage n) with
  | inl e => fail e
  | inr msg => ret msg
  end.

(** [s.ns.ProcessHandshakeMessage(msg)] on the stream's noise state. *)
Definition processHandshakeMessage (p : nat) (msg : bytes) : Go unit :=
  let* s := load (fun st => streams st !! p) in
  let* n := deref (s_ns s) in
  set_ns p (snd (ProcessHandshakeMessage n msg)) >>
  match fst (ProcessHandshakeMessage n msg) with
  | Some e => fail e
  | None => ret tt
  end.

(** [Stream.writeRequest] *)
Definition writeRequest (p : nat) (ra : Addr) : Go StreamDialRequest :=
  (* Reserve stream in porter. *)
  let* seed := gets rand in
  let* r := gets (fun st => ReserveEphemeral seed (EStream p) (porter st)) in
  modify (set_porter (snd r)) >>
  match fst r with
  | inl e => set_close p None >> fail e
  | inr (lPort, f) =>
      set_close p (Some f) >>
      (* Prepare fields. *)
      let* s := load (fun st => streams st !! p) in
      prepareFields p true (mkAddr (lPK (ses s)) lPort) ra >>
      (* Prepare request. *)
      let* nsMsg := makeHandshakeMessage p in
      let* s := load (fun st => streams st !! p) in
      let* now := gets clock in
      let req := Sign (lSK (ses s)) (mkReq now (lAddr s) (rAddr s) nsMsg 0) in
      (* Write request. *)
      writeEncryptedGob (yStr s) (ns (ses s)) (RReq req) >>
      ret req
  end.

(** [Stream.readRequest] *)
Definition readRequest (p : nat) : Go StreamDialRequest :=
  let* s := load (fun st => streams st !! p) in
  let* req := readReqGob (yStr s) (ns (ses s)) in
  let* now := gets clock in
  match Verify now req 0 with
  | Some _ => fail ErrReqInvalidTimestamp
  | None =>
      if decide (PK (DstAddr req) = lPK (ses s)) then
        (* Prepare fields. *)
        prepareFields p false (DstAddr req) (SrcAddr req) >>
        processHandshakeMessage p (NoiseMsg req) >>
        ret req
      else fail ErrReqInvalidDstPK
  end.

(** Modelled from the spec: [Listener.introduceStream] is not among the
    sources.  The stream is delivered to the listener's inbox unless the
    listener is closed or the inbox is full. *)
Definition introduceStream (l : nat) (p : nat) : Go unit :=
  let* lis := load (fun st => listeners st !! l) in
  if l_closed lis then fail ErrListenerClosed
  else if (l_cap lis <=? length (l_inbox lis))%nat then fail ErrBusyListener
  else modify (fun st =>
         set_listeners (<[l := mkListener (l_inbox lis ++ [p]) (l_cap lis) false]>
                          (listeners st)) st).

(** [Stream.writeResponse] *)
Definition writeResponse (p : nat) (req : StreamDialRequest) : Go unit :=
  let* s := load (fun st => streams st !! p) in
  (* Obtain associated local listener. *)
  let* pVal := gets (fun st => PortValue (Port (lAddr s)) (porter st)) in
  match pVal with
  | None => fail ErrReqNoListener
  | Some (EStream _) => fail ErrReqNoListener
  | Some (EListener lis) =>
      (* Prepare and write response. *)
      let* nsMsg := makeHandshakeMessage p in
      let resp := SignResp (lSK (ses s)) (mkResp (Hash req) true nsMsg 0) in
      writeEncryptedGob (yStr s) (ns (ses s)) (RResp resp) >>
      (* Push stream to listener. *)
      introduceStream lis p
  end.

(** [Stream.readResponse] *)
Definition readResponse (p : nat) (req : StreamDialRequest) : Go unit :=
  let* s := load (fun st => streams st !! p) in
  let* resp := readRespGob (yStr s) (ns (ses s)) in
  match VerifyResp resp (PK (DstAddr req)) (Hash req) with
  | Some e => fail e
  | None => processHandshakeMessage p (RespNoiseMsg resp)
  end.

(** [Stream.LocalAddr], [Stream.RemoteAddr] *)
Definition LocalAddr (s : Stream) : Addr := lAddr s.
Definition RemoteAddr (s : Stream) : Addr := rAddr s.

(** [Stream.Read]: [s.yStr.Read(b)], not through [s.nsConn]. *)
Definition Read (p : nat) (n : nat) : Go bytes :=
  let* s := load (fun st => streams st !! p) in
  yRead (yStr s) n.

(** [Stream.Write]: [s.yStr.Write(b)], not through [s.nsConn]. *)
Definition Write (p : nat) (b : bytes) : Go nat :=
  let* s := load (fun st => streams st !! p) in
  yWrite (yStr s) b.

(** ** [session.go] *)

(** [defer d] around the rest [m] of a function body: [d] runs when [m]
    returns, whatever its outcome, and its own result is dropped. *)
Definition defer {A} (d : Go unit) (m : Go A) : Go A :=
  fun st => (fst (m st), snd (d (snd (m st)))).

(** [yamux.Client(conn, cfg)] and [yamux.Server(conn, cfg)]: the multiplexer
    is started on the connection. *)
Definition yamux_start (conn : nat) (client : bool) : Go nat :=
  let* i := gets next_handle in
  put_ysession i (mkYSession conn client [] [] false false) >>
  modify (set_next_handle (S i)) >>
  ret i.

(** [InitiateSession] *)
Definition InitiateSession (conn : nat) (lSK : SecKey) (lPK rPK : PubKey) : Go Session :=
  match noise_New HandshakeXK (mkConfig lPK lSK rPK true) with
  | inl e => fail e
  | inr n =>
      let* c := load (fun st => conns st !! conn) in
      (* r := bufio.NewReader(conn) *)
      let hs := InitiatorHandshake n (mkBuf []) c in
      modify (fun st => set_conns (<[conn := snd (snd hs)]> (conns st)) st) >>
      match fst hs with
      | Some e => fail e
      | None =>
          if 0 <? Buffered (snd (fst (snd hs))) then fail HandshakeResidue
          else
            let* ySes := yamux_start conn true in
            ret (mkSession lPK lSK rPK ySes (fst (fst (snd hs))))
      end
  end.

(** [RespondSession] *)
Definition RespondSession (conn : nat) (lSK : SecKey) (lPK : PubKey) : Go Session :=
  match noise_New HandshakeXK (mkConfig lPK lSK 0 false) with
  | inl e => fail e
  | inr n =>
      let* c := load (fun st => conns st !! conn) in
      (* r := bufio.NewReader(conn) *)
      let hs := ResponderHandshake n (mkBuf []) c in
      modify (fun st => set_conns (<[conn := snd (snd hs)]> (conns st)) st) >>
      match fst hs with
      | Some e => fail e
      | None =>
          if 0 <? Buffered (snd (fst (snd hs))) then fail HandshakeResidue
          else
            let* ySes := yamux_start conn false in
            ret (mkSession lPK lSK (RemoteStatic (fst (fst (snd hs)))) ySes
                           (fst (fst (snd hs))))
      end
  end.

(** The closure [readRequest] of [handleServerStream]. *)
Definition serverReadRequest (s : Session) (y : nat) : Go StreamDialRequest :=
  let* req := readReqGob y (ns s) in
  let* now := gets clock in
  match Verify now req 0 with
  | Some _ => fail ErrReqInvalidTimestamp
  | None =>
      if decide (PK (SrcAddr req) = rPK s) then ret req
      else fail ErrReqInvalidSrcPK
  end.

(** [Session.forwardRequest] *)
Definition forwardRequest (s : Session) (req : StreamDialRequest)
  : Go (nat * StreamDialResponse) :=
  let* y := OpenStream (ys s) in
  let* w := try (writeEncryptedGob y (ns s) (RReq req)) in
  match w with
  | inl e => try (yClose y) >> fail e
  | inr _ =>
      let* r := try (readRespGob y (ns s)) in
      match r with
      | inl e => try (yClose y) >> fail e
      | inr resp =>
          match VerifyResp resp (PK (DstAddr req)) (Hash req) with
          | Some e => try (yClose y) >> fail e
          | None => ret (y, resp)
          end
      end
  end.

(** Modelled from the spec: [netutil.CopyReadWriter] is not among the
    sources.  The byte pump copies what arrives on either sub-stream to the
    other one, verbatim, until one side ends. *)
Definition CopyReadWriter (a b : nat) : Go unit :=
  let* ya := load (fun st => ystreams st !! a) in
  let* yb := load (fun st => ystreams st !! b) in
  put_ystream a (mkYStream [] (y_tx ya ++ y_rx yb) (y_closed ya)) >>
  put_ystream b (mkYStream [] (y_tx yb ++ y_rx ya) (y_closed yb)).

(** [Session.handleServerStream] *)
Definition handleServerStream (s : Session) (y : nat) : Go unit :=
  (* Read request. *)
  let* req := serverReadRequest s y in
  (* Obtain next session. *)
  let* g := gets getter in
  match g (PK (DstAddr req)) with
  | None => fail ErrReqNoSession
  | Some s2 =>
      (* Forward request and obtain/check response. *)
      let* fr := forwardRequest s2 req in
      defer (yClose (fst fr))
        ((* Forward response. *)
         writeEncryptedGob y (ns s) (RResp (snd fr)) >>
         (* Serve stream. *)
         CopyReadWriter y (fst fr))
  end.

(** The goroutine that [AcceptServerStream] starts, run to completion: the
    value is the error it logs. *)
Definition serveStream (s : Session) (y : nat) : Go (option error) :=
  let* r := try (handleServerStream s y) in
  try (yClose y) >>
  ret (match r with inl e => Some e | inr _ => None end).

(** [Session.AcceptServerStream] *)
Definition AcceptServerStream (s : Session) : Go unit :=
  let* y := AcceptStream (ys s) in
  serveStream s y >> ret tt.

(** [Session.Close]; the part that walks the porter is commented out in the
    source. *)
Definition SessionClose (s : Session) : Go unit :=
  try (GoAway (ys s)) >>
  ysClose (ys s).

(** ** The dial driver *)

(** Modelled from the spec: the function that drives [writeRequest] and
    [readResponse] is not among the sources ([DialClientStream] of
    [session.go] calls [NewStream] and [DoClientHandshake], which are absent).
    It opens a sub-stream, sends the request, reads and verifies the response,
    and returns the stream; on any failure the reservation is released and the
    sub-stream is closed, which is what [Stream.Close] does. *)
Definition DialStream (cs : Session) (dst : Addr) : Go nat :=
  let* p := newInitiatingStream cs in
  let* r := try (let* req := writeRequest p dst in readResponse p req) in
  match r with
  | inl e => try (Close (Some p)) >> fail e
  | inr _ => ret p
  end.

(** ** Notions the statements use *)

(** The state after the call of a stored release closure, if there is one. *)
Definition released (c : option Freer) (st : Proc) : Proc :=
  match c with
  | Some f => log_event (EvFree f) (set_porter (release f (porter st)) st)
  | None => st
  end.

(** The state after [yStr.Close()] on sub-stream [h], which held [y]. *)
Definition yclosed (h : nat) (y : YStream) (st : Proc) : Proc :=
  log_event (EvYClose h)
    (set_ystreams (<[h := mkYStream (y_rx y) (y_tx y) true]> (ystreams st)) st).


End Dmsg.

Global Instance Freer_eq_dec : EqDecision Freer.
Proof. solve_decision. Defined.


(** ** A concrete instance of the collaborators and concrete processes

    Used to run the model: a dialing client A (key 10), a relay server
    (key 30) and an accepting client B (key 20). *)

Module Toy.

Definition x01 : Byte.byte := Byte.x01.

(** A handshake that reads a two-byte message through the buffered reader;
    the reader takes everything the connection has ready. *)
Definition toy_handshake (n : Z) (r : BufReader) (c : Conn)
  : option error * (Z * BufReader * Conn) :=
  let buf := br_buf r ++ c_rx c in
  if (length buf <? 2)%nat
  then (Some (ErrNoise 3), (n, mkBuf buf, mkConn [] (c_tx c)))
  else (None, (n + 1, mkBuf (drop 2 buf), mkConn [] (c_tx c ++ [x01]))).

Global Instance toy : Collaborators := {|
  Noise := Z;
  noise_New pat cfg :=
    match pat with
    | HandshakeKK => if RemotePK cfg =? 0 then inl (ErrNoise 1)
                     else inr (LocalSK cfg + RemotePK cfg)
    | HandshakeXK => inr (LocalSK cfg)
    end;
  MakeHandshakeMessage n := (inr [x01], n + 1);
  ProcessHandshakeMessage n msg :=
    match msg with
    | [] => (Some (ErrNoise 2), n)
    | _ => (None, n + 1)
    end;
  RemoteStatic n := 7;
  session_key n := n;
  seal k r := [];
  InitiatorHandshake := toy_handshake;
  ResponderHandshake := toy_handshake;
  digest_req ts src dst msg :=
    ts + 3 * PK src + 5 * Port src + 7 * PK dst + 11 * Port dst
    + Z.of_nat (length msg);
  digest_resp h a msg := h + (if a then 1 else 0) + Z.of_nat (length msg);
  sign_payload sk d := sk + d;
  verify_payload pk sg d := sg =? pk + d
|}.

Definition ping : bytes := [Byte.x70; Byte.x69; Byte.x6e; Byte.x67].

Definition emptyPorter : Porter := mkPorter ∅ ∅ 0.
Definition openSession (backlog : list nat) : YSession :=
  mkYSession 0 true [] backlog false false.

(** The sessions: A and B with the server, and the server's two ends. *)
Definition sesA : Session := mkSession 10 10 30 0 100.
Definition sesB : Session := mkSession 20 20 30 0 200.
Definition srvA : Session := mkSession 30 30 10 0 100.
Definition srvB : Session := mkSession 30 30 20 1 200.

Definition dstB : Addr := mkAddr 20 5000.

(** The request A signs when it dials [dstB] at time 1000 from port 52000,
    and the response B signs for it. *)
Definition reqA : StreamDialRequest :=
  Sign 10 (mkReq 1000 (mkAddr 10 52000) dstB [x01] 0).
Definition respB : StreamDialResponse :=
  SignResp 20 (mkResp (Hash reqA) true [x01] 0).

(** Client A: an empty porter, an open session, and [inb] the chunks that
    will arrive on the sub-stream it opens.  The random seed makes the porter
    start probing at port 52000. *)
Definition procA (inb : list Chunk) : Proc :=
  mkProc emptyPorter ∅ (fun _ => None) ∅ {[0%nat := openSession []]} ∅ ∅
         (fun _ => inb) 1 1000 2848 [].

(** Client B: [lis] says whether a listener holds port 5000; sub-stream 1 is
    waiting to be accepted and carries [rx]. *)
Definition procB (lis : bool) (rx : list Chunk) : Proc :=
  mkProc (mkPorter (if lis then {[5000 := EListener 0]} else ∅) ∅ 0)
         {[0%nat := mkListener [] 64 false]} (fun _ => None) ∅
         {[0%nat := openSession [1%nat]]}
         {[1%nat := mkYStream rx [] false]} ∅
         (fun _ => []) 2 1000 7 [].

(** The server: sessions 0 (with A) and 1 (with B); sub-stream 2 came in from
    A carrying [rx]; [inb] is what B will answer on the sub-stream the server
    opens to it. *)
Definition procS (rx inb : list Chunk) : Proc :=
  mkProc emptyPorter ∅
         (fun pk => if pk =? 20 then Some srvB
                    else if pk =? 10 then Some srvA else None)
         ∅
         {[0%nat := openSession [2%nat]; 1%nat := openSession []]}
         {[2%nat := mkYStream rx [] false]} ∅
         (fun _ => inb) 3 1000 0 [].

(** A request from A that claims the source key of another client (11): A
    can only sign it with its own key, so its signature does not verify. *)
Definition reqForged : StreamDialRequest :=
  Sign 10 (mkReq 1000 (mkAddr 11 52000) dstB [x01] 0).

(** A request of another client (key 11), fresh and signed by it, that A
    sends on its own session. *)
Definition reqReplayed : StreamDialRequest :=
  Sign 11 (mkReq 1000 (mkAddr 11 52000) dstB [x01] 0).

(** A connection on which one byte follows the two handshake bytes. *)
Definition residue : bytes := [x01; x01; x01].
Definition procConn (rx : bytes) : Proc :=
  mkProc emptyPorter ∅ (fun _ => None) {[0%nat := mkConn rx []]} ∅ ∅ ∅
         (fun _ => []) 1 1000 0 [].

(** What sub-stream [h] has transmitted so far. *)
Definition tx_of (h : nat) (st : Proc) : list Chunk :=
  match ystreams st !! h with
  | Some y => y_tx y
  | None => []
  end.

(** A response of B that turns the dial down. *)
Definition respRejected : StreamDialResponse :=
  SignResp 20 (mkResp (Hash reqA) false [x01] 0).

(** A opens sub-stream 1 and writes its request on it. *)
Definition openedA (inb : list Chunk) : Proc :=
  snd (newInitiatingStream sesA (procA inb)).
Definition requestedA (inb : list Chunk) : Proc :=
  snd (writeRequest 1 dstB (openedA inb)).

(** A after a dial that B accepted, and after writing "ping" to the stream. *)
Definition dialedA : Proc :=
  snd (DialStream sesA dstB (procA [CSealed 100 (RResp respB)])).
Definition pingA : Proc := snd (Write 1 ping dialedA).

(** The server relays what A transmitted; B answers with [respB]. *)
Definition relayS : Proc :=
  procS (tx_of 1 pingA) [CSealed 200 (RResp respB)].
Definition relayed : Proc := snd (serveStream srvA 2 relayS).

(** B accepts sub-stream 1, which carries what the server transmitted to it,
    reads the request and answers. *)
Definition acceptB0 (lis : bool) : Proc :=
  snd (newRespondingStream sesB (procB lis (tx_of 3 relayed))).
Definition acceptB1 (lis : bool) : Proc := snd (readRequest 1 (acceptB0 lis)).
Definition acceptB2 (lis : bool) : Proc := snd (writeResponse 1 reqA (acceptB1 lis)).

(** The release closure of A's stream. *)
Definition freerA : Freer := mkFreer 52000 0.

(** The dial of A step by step, with the relay and B in between: A writes
    its request, the server relays it, B reads it and answers, A reads the
    response. *)
Definition inbA : list Chunk := [CSealed 100 (RResp respB)].
Definition relayS0 : Proc :=
  procS (tx_of 1 (requestedA inbA)) [CSealed 200 (RResp respB)].
Definition relayed0 : Proc := snd (handleServerStream srvA 2 relayS0).
Definition acceptC0 : Proc :=
  snd (newRespondingStream sesB (procB true (tx_of 3 relayed0))).
Definition acceptC1 : Proc := snd (readRequest 1 acceptC0).
Definition acceptC2 : Proc := snd (writeResponse 1 reqA acceptC1).
Definition respondedA : Proc := snd (readResponse 1 reqA (requestedA inbA)).

(** A's stream as [newInitiatingStream] makes it and as the dial leaves it,
    and the sub-stream under it. *)
Definition streamA0 : Stream := mkStream sesA 1 zeroAddr zeroAddr None None None.

End Toy.

(** * [dmsgpty]: the whitelists of public keys

    The file-backed and the in-memory implementation of the [Whitelist]
    interface.  The file system is explicit state; [encoding/json] is a
    parameter. *)

Module Dmsgpty.

(** An [error] of this package, by its message. *)
Definition gerror := string.

(** [encoding/json] at the type [map[cipher.PubKey]bool]:
    [json.NewEncoder(f).Encode(m)] writes [json_encode m], and
    [json.NewDecoder(f).Decode(&m)] reads one value from the front of the
    file. *)
Class JsonCodec := {
  json_encode : gmap PubKey bool -> bytes;
  json_decode : bytes -> gerror + gmap PubKey bool
}.

(** What the code needs of the codec: a decoder reads back the value at the
    front of its input, whatever follows it, and an encoding is never empty
    (it ends with a newline). *)
Definition codec_ok `{JsonCodec} : Prop :=
  (forall m tail, json_decode (json_encode m ++ tail) = inr m) /\
  (forall m, json_encode m <> []).

(** The files by name, and what [os.OpenFile] answers when it refuses to open
    a name (read-only or read-write). *)
Record FS := mkFS {
  files : gmap string bytes;
  refuse : string -> bool -> option gerror
}.

(** [os.OpenFile(name, flag|os.O_CREATE, 0600)], [rw] telling [O_RDWR] from
    [O_RDONLY]: a missing file is created empty. *)
Definition OpenFile (name : string) (rw : bool) (fs : FS) : option gerror * FS :=
  match refuse fs name rw with
  | Some e => (Some e, fs)
  | None =>
      (None,
       match files fs !! name with
       | Some _ => fs
       | None => mkFS (<[name := []]> (files fs)) (refuse fs)
       end)
  end.

(** A write of [new] at offset 0 of a file holding [old]: the file is not
    truncated. *)
Definition write_at0 (new old : bytes) : bytes := new ++ drop (length new) old.

(** [json.NewEncoder(f).Encode(pkMap)] on the file just rewound. *)
Definition Encode `{JsonCodec} (name : string) (pkMap : gmap PubKey bool) (fs : FS)
  : option gerror * FS :=
  match files fs !! name with
  | Some old =>
      (None, mkFS (<[name := write_at0 (json_encode pkMap) old]> (files fs)) (refuse fs))
  | None => (Some "file already closed", fs)
  end.

(** [jsonFileWhitelist]: the name of its file. *)
Record jsonFileWhitelist := mkJsonWL { fileName : string }.

(** [jsonFileWhitelist.open]: [fn] gets the decoded map and the open file;
    [Stat] and [Seek] on the file just opened do not fail. *)
Definition open `{JsonCodec} {A} (w : jsonFileWhitelist) (rw : bool)
    (fn : gmap PubKey bool -> FS -> (gerror + A) * FS) (fs : FS)
  : (gerror + A) * FS :=
  match OpenFile (fileName w) rw fs with
  | (Some e, fs1) => (inl e, fs1)
  | (None, fs1) =>
      (* get file size *)
      let content := default [] (files fs1 !! fileName w) in
      (* read public key map from file *)
      if (0 <? length content)%nat then
        match json_decode content with
        | inl e => (inl e, fs1)
        | inr pks => fn pks fs1
        end
      else fn ∅ fs1
  end.

(** [jsonFileErr] *)
Definition jsonFileErr (err : option gerror) : option gerror :=
  match err with
  | Some e => Some ("json file whitelist: " +:+ e)
  | None => None
  end.

Definition err_of {A} (r : gerror + A) : option gerror :=
  match r with
  | inl e => Some e
  | inr _ => None
  end.

(** [jsonFileWhitelist.Get]: [ok] stays false when [open] fails. *)
Definition jsonGet `{JsonCodec} (w : jsonFileWhitelist) (pk : PubKey) (fs : FS)
  : (bool * option gerror) * FS :=
  let r := open w false (fun pkMap fs' => (inr (default false (pkMap !! pk)), fs')) fs in
  ((match fst r with inr ok => ok | inl _ => false end, jsonFileErr (err_of (fst r))),
   snd r).

(** [jsonFileWhitelist.All]: [out] stays nil, which reads as the empty map,
    when [open] fails. *)
Definition jsonAll `{JsonCodec} (w : jsonFileWhitelist) (fs : FS)
  : (gmap PubKey bool * option gerror) * FS :=
  let r := open w false (fun pkMap fs' => (inr pkMap, fs')) fs in
  ((match fst r with inr out => out | inl _ => ∅ end, jsonFileErr (err_of (fst r))),
   snd r).

(** [for _, pk := range pks { pkMap[pk] = true }] *)
Definition set_all (pks : list PubKey) (pkMap : gmap PubKey bool) : gmap PubKey bool :=
  foldl (fun m pk => <[pk := true]> m) pkMap pks.

(** [for _, pk := range pks { delete(pkMap, pk) }] *)
Definition delete_all (pks : list PubKey) (pkMap : gmap PubKey bool) : gmap PubKey bool :=
  foldl (fun m pk => delete pk m) pkMap pks.

Definition write_back `{JsonCodec} (w : jsonFileWhitelist) (pkMap : gmap PubKey bool)
    (fs : FS) : (gerror + unit) * FS :=
  match Encode (fileName w) pkMap fs with
  | (Some e, fs') => (inl e, fs')
  | (None, fs') => (inr tt, fs')
  end.

(** [jsonFileWhitelist.Add] *)
Definition jsonAdd `{JsonCodec} (w : jsonFileWhitelist) (pks : list PubKey) (fs : FS)
  : option gerror * FS :=
  let r := open w true (fun pkMap fs' => write_back w (set_all pks pkMap) fs') fs in
  (jsonFileErr (err_of (fst r)), snd r).

(** [jsonFileWhitelist.Remove] *)
Definition jsonRemove `{JsonCodec} (w : jsonFileWhitelist) (pks : list PubKey) (fs : FS)
  : option gerror * FS :=
  let r := open w true (fun pkMap fs' => write_back w (delete_all pks pkMap) fs') fs in
  (jsonFileErr (err_of (fst r)), snd r).

(** [memoryWhitelist]: the set [m] of keys ([map[cipher.PubKey]struct{}]);
    the mutex orders the calls and is not modelled. *)
Definition memoryWhitelist := gset PubKey.

(** [NewMemoryWhitelist] *)
Definition NewMemoryWhitelist : memoryWhitelist := ∅.

(** [memoryWhitelist.Get] *)
Definition memGet (pk : PubKey) (m : memoryWhitelist) : (bool * option gerror) * memoryWhitelist :=
  ((bool_decide (pk ∈ m), None), m).

(** [memoryWhitelist.All]: a new map with [true] for every key. *)
Definition memAll (m : memoryWhitelist) : (gmap PubKey bool * option gerror) * memoryWhitelist :=
  ((set_fold (fun k out => <[k := true]> out) ∅ m, None), m).

(** [memoryWhitelist.Add] *)
Definition memAdd (pks : list PubKey) (m : memoryWhitelist) : option gerror * memoryWhitelist :=
  (None, foldl (fun s pk => {[pk]} ∪ s) m pks).

(** [memoryWhitelist.Remove] *)
Definition memRemove (pks : list PubKey) (m : memoryWhitelist) : option gerror * memoryWhitelist :=
  (None, foldl (fun s pk => s ∖ {[pk]}) m pks).

(** The file of [w] reads as the map [m]: it is missing or empty and [m] is
    empty, or the decoder reads [m] from it. *)
Definition reads_as `{JsonCodec} (w : jsonFileWhitelist) (fs : FS)
    (m : gmap PubKey bool) : Prop :=
  match files fs !! fileName w with
  | None => m = ∅
  | Some c => if (0 <? length c)%nat then json_decode c = inr m else m = ∅
  end.

(** The [Whitelist] interface, over the state [W] an implementation works
    on. *)
Class Whitelist (W : Type) := {
  Get : PubKey -> W -> (bool * option gerror) * W;
  All : W -> (gmap PubKey bool * option gerror) * W;
  Add : list PubKey -> W -> option gerror * W;
  Remove : list PubKey -> W -> option gerror * W
}.

Global Instance memory_whitelist : Whitelist memoryWhitelist := {|
  Get := memGet; All := memAll; Add := memAdd; Remove := memRemove
|}.

(** A file-backed whitelist together with the file system it lives in. *)
Record JsonState := mkJsonState { jw : jsonFileWhitelist; jfs : FS }.

Definition lift_json {A} (f : jsonFileWhitelist -> FS -> A * FS) (j : JsonState)
  : A * JsonState :=
  (fst (f (jw j) (jfs j)), mkJsonState (jw j) (snd (f (jw j) (jfs j)))).

Global Instance json_whitelist `{JsonCodec} : Whitelist JsonState := {|
  Get pk := lift_json (fun w => jsonGet w pk);
  All := lift_json jsonAll;
  Add pks := lift_json (fun w => jsonAdd w pks);
  Remove pks := lift_json (fun w => jsonRemove w pks)
|}.

(** Calls through the interface and what they return. *)
Inductive call :=
| CGet (pk : PubKey)
| CAll
| CAdd (pks : list PubKey)
| CRemove (pks : list PubKey).

Inductive reply :=
| RGet (ok : bool) (err : option gerror)
| RAll (out : gmap PubKey bool) (err : option gerror)
| RErr (err : option gerror).

Definition do_call {W} `{Whitelist W} (c : call) (w : W) : reply * W :=
  match c with
  | CGet pk => (RGet (fst (fst (Get pk w))) (snd (fst (Get pk w))), snd (Get pk w))
  | CAll => (RAll (fst (fst (All w))) (snd (fst (All w))), snd (All w))
  | CAdd pks => (RErr (fst (Add pks w)), snd (Add pks w))
  | CRemove pks => (RErr (fst (Remove pks w)), snd (Remove pks w))
  end.

Fixpoint do_calls {W} `{Whitelist W} (cs : list call) (w : W) : list reply * W :=
  match cs with
  | [] => ([], w)
  | c :: cs' =>
      (fst (do_call c w) :: fst (do_calls cs' (snd (do_call c w))),
       snd (do_calls cs' (snd (do_call c w))))
  end.

(** ** A concrete codec: unary numbers *)

Definition enc_nat (n : nat) : bytes := replicate n Byte.x01 ++ [Byte.x00].

Fixpoint dec_nat (bs : bytes) : option (nat * bytes) :=
  match bs with
  | Byte.x00 :: rest => Some (O, rest)
  | Byte.x01 :: rest =>
      match dec_nat rest with
      | Some (n, r) => Some (S n, r)
      | None => None
      end
  | _ => None
  end.

Definition enc_entry (e : PubKey * bool) : bytes :=
  enc_nat (encode_nat (fst e)) ++ [if snd e then Byte.x01 else Byte.x00].

Definition dec_entry (bs : bytes) : option ((PubKey * bool) * bytes) :=
  match dec_nat bs with
  | Some (n, r) =>
      match decode_nat n, r with
      | Some k, Byte.x01 :: r' => Some ((k, true), r')
      | Some k, Byte.x00 :: r' => Some ((k, false), r')
      | _, _ => None
      end
  | None => None
  end.

Fixpoint dec_entries (n : nat) (bs : bytes) : option (list (PubKey * bool) * bytes) :=
  match n with
  | O => Some ([], bs)
  | S n' =>
      match dec_entry bs with
      | Some (e, r) =>
          match dec_entries n' r with
          | Some (l, r') => Some (e :: l, r')
          | None => None
          end
      | None => None
      end
  end.

Definition toy_encode (m : gmap PubKey bool) : bytes :=
  enc_nat (length (map_to_list m)) ++ flat_map enc_entry (map_to_list m).

Definition toy_decode (bs : bytes) : gerror + gmap PubKey bool :=
  match dec_nat bs with
  | Some (n, r) =>
      match dec_entries n r with
      | Some (l, _) => inr (list_to_map l)
      | None => inl "unexpected end of JSON input"
      end
  | None => inl "invalid character"
  end.

Definition toy_codec : JsonCodec := {|
  json_encode := toy_encode;
  json_decode := toy_decode
|}.

(** A file system with no file in which nothing is refused. *)
Definition emptyFS : FS := mkFS ∅ (fun _ _ => None).

Definition wl : jsonFileWhitelist := mkJsonWL "/etc/dmsgpty/whitelist.json".

(** The file system after [Add(10, 20)] on [emptyFS], and the map its file
    reads as. *)
Definition twoKeys : gmap PubKey bool := set_all [10; 20] ∅.
Definition twoKeysFS : FS := snd (@jsonAdd toy_codec wl [10; 20] emptyFS).

(** A file system on which the file cannot be opened for writing, and one in
    which the file holds a byte that is no encoding. *)
Definition readonlyFS : FS :=
  mkFS ∅ (fun _ rw => if rw then Some "permission denied" else None).
Definition corruptFS : FS := mkFS {[fileName wl := [Byte.x02]]} (fun _ _ => None).

End Dmsgpty.

(** * Properties *)

(** ** The porter *)

Lemma probe_free (m : gmap Z Entity) p d q : probe m p d = Some q -> m !! q = None.
Proof.
  revert p. induction d as [|d IH]; intros p; simpl.
  - destruct (m !! p) eqn:E; [discriminate|]. by intros [= <-].
  - destruct (probe m p d) eqn:E.
    + intros [= <-]. by eapply IH.
    + apply IH.
Qed.

Lemma port_after_range p k : minEph <= port_after p k <= maxPort.
Proof.
  unfold port_after, minEph, maxPort.
  pose proof (Z.mod_pos_bound (p - 49152 + k) 16384 ltac:(lia)). lia.
Qed.

Lemma probe_range (m : gmap Z Entity) p d q :
  minEph <= p <= maxPort -> probe m p d = Some q -> minEph <= q <= maxPort.
Proof.
  revert p. induction d as [|d IH]; intros p Hp; simpl.
  - destruct (m !! p); [discriminate|]. by intros [= <-].
  - destruct (probe m p d) eqn:E.
    + intros [= <-]. by eapply IH.
    + apply IH, port_after_range.
Qed.

Lemma port_after_0 p : minEph <= p <= maxPort -> port_after p 0 = p.
Proof.
  unfold port_after, minEph, maxPort. intros Hp.
  rewrite Z.add_0_r, Z.mod_small; lia.
Qed.

Lemma port_after_add p a b : port_after (port_after p a) b = port_after p (a + b).
Proof.
  unfold port_after. f_equal.
  replace (minEph + (p - minEph + a) mod 16384 - minEph + b)
    with ((p - minEph + a) mod 16384 + b) by lia.
  rewrite Zplus_mod_idemp_l. f_equal. lia.
Qed.

(** A sweep that finds nothing has seen every one of its ports taken. *)
Lemma probe_none_full (m : gmap Z Entity) p d :
  minEph <= p <= maxPort ->
  probe m p d = None ->
  forall k, 0 <= k < 2 ^ Z.of_nat d -> is_Some (m !! port_after p k).
Proof.
  revert p. induction d as [|d IH]; intros p Hp Hnone k Hk.
  - simpl in Hnone. change (2 ^ Z.of_nat 0) with 1 in Hk.
    replace k with 0 by lia. rewrite port_after_0 by done.
    destruct (m !! p); [eauto|discriminate].
  - simpl in Hnone. destruct (probe m p d) eqn:E; [discriminate|].
    rewrite Nat2Z.inj_succ, Z.pow_succ_r in Hk by lia.
    destruct (Z.lt_ge_cases k (2 ^ Z.of_nat d)) as [Hlt|Hge].
    + apply IH; [done..|lia].
    + replace k with (2 ^ Z.of_nat d + (k - 2 ^ Z.of_nat d)) by lia.
      rewrite <- port_after_add.
      apply IH; [apply port_after_range|done|lia].
Qed.

(** NoFreePort means that the whole ephemeral range is taken. *)
Lemma ReserveEphemeral_full seed v P e P' :
  ReserveEphemeral seed v P = (inl e, P') ->
  forall q, minEph <= q <= maxPort -> is_Some (ports P !! q).
Proof.
  unfold ReserveEphemeral.
  destruct (probe (ports P) (minEph + seed mod 16384) sweep) eqn:E; [discriminate|].
  intros _ q Hq.
  assert (Hp : minEph <= minEph + seed mod 16384 <= maxPort).
  { unfold minEph, maxPort. pose proof (Z.mod_pos_bound seed 16384 ltac:(lia)). lia. }
  pose proof (probe_none_full _ _ _ Hp E ((q - (minEph + seed mod 16384)) mod 16384)) as Hfull.
  replace (port_after (minEph + seed mod 16384)
             ((q - (minEph + seed mod 16384)) mod 16384)) with q in Hfull.
  - apply Hfull. change (2 ^ Z.of_nat sweep) with 16384. apply Z.mod_pos_bound. lia.
  - unfold port_after.
    replace (minEph + seed mod 16384 - minEph) with (seed mod 16384) by lia.
    rewrite Zplus_mod_idemp_r.
    replace (seed mod 16384 + (q - (minEph + seed mod 16384))) with (q - minEph) by lia.
    unfold minEph, maxPort in *. rewrite Z.mod_small; lia.
Qed.

Lemma ReserveEphemeral_inr seed v P q f P' :
  ReserveEphemeral seed v P = (inr (q, f), P') ->
  ports P !! q = None /\ minEph <= q <= maxPort /\
  f = mkFreer q (next_once P) /\
  P' = mkPorter (<[q := v]> (ports P)) (fired P ∖ {[next_once P]}) (S (next_once P)).
Proof.
  unfold ReserveEphemeral.
  destruct (probe (ports P) (minEph + seed mod 16384) sweep) as [q'|] eqn:E;
    [|discriminate].
  intros [= <- <- <-]. split; [eapply probe_free, E|].
  split; [|done].
  eapply probe_range; [|exact E].
  unfold minEph, maxPort.
  pose proof (Z.mod_pos_bound seed 16384 ltac:(lia)). lia.
Qed.

Lemma ReserveEphemeral_inl seed v P e P' :
  ReserveEphemeral seed v P = (inl e, P') -> e = ErrNoFreePort /\ P' = P.
Proof.
  unfold ReserveEphemeral.
  destruct (probe (ports P) (minEph + seed mod 16384) sweep); [discriminate|].
  by intros [= <- <-].
Qed.

(** Releasing a fresh reservation removes exactly the mapping it made. *)
Lemma release_reserved seed v P q f P' :
  ReserveEphemeral seed v P = (inr (q, f), P') ->
  ports (release f P') = ports P /\ ports (release f P') !! q = None /\
  fr_once f ∈ fired (release f P').
Proof.
  intros Hr. destruct (ReserveEphemeral_inr _ _ _ _ _ _ Hr) as (Hq & _ & -> & ->).
  unfold release; simpl. rewrite decide_False by set_solver.
  simpl. rewrite delete_insert_eq. rewrite delete_id by done.
  split; [done|]. split; [done|]. set_solver.
Qed.



Section Proofs.
Context `{Collaborators}.

(** ** Running the monad *)

Lemma bind_Ok {A B} (m : Go A) (k : A -> Go B) st a st' :
  m st = (Ok a, st') -> bind m k st = k a st'.
Proof. unfold bind. by intros ->. Qed.

Lemma bind_Fail {A B} (m : Go A) (k : A -> Go B) st e st' :
  m st = (Fail e, st') -> bind m k st = (Fail e, st').
Proof. unfold bind. by intros ->. Qed.

Lemma bind_Panic {A B} (m : Go A) (k : A -> Go B) st msg st' :
  m st = (Panic msg, st') -> bind m k st = (Panic msg, st').
Proof. unfold bind. by intros ->. Qed.

Lemma load_Some {A} (f : Proc -> option A) st a :
  f st = Some a -> load f st = (Ok a, st).
Proof. unfold load. by intros ->. Qed.

Lemma bind_gets {A B} (f : Proc -> A) (k : A -> Go B) st :
  bind (gets f) k st = k (f st) st.
Proof. reflexivity. Qed.

Lemma bind_modify {B} (f : Proc -> Proc) (k : unit -> Go B) st :
  bind (modify f) k st = k tt (f st).
Proof. reflexivity. Qed.

Lemma bind_ret {A B} (a : A) (k : A -> Go B) st : bind (ret a) k st = k a st.
Proof. reflexivity. Qed.

Lemma bind_load {A B} (f : Proc -> option A) (k : A -> Go B) st a :
  f st = Some a -> bind (load f) k st = k a st.
Proof. intros Hf. unfold bind, load. by rewrite Hf. Qed.

Lemma bind_deref {A B} (o : option A) (k : A -> Go B) st a :
  o = Some a -> bind (deref o) k st = k a st.
Proof. by intros ->. Qed.

Lemma bind_assoc {A B C} (m : Go A) (k : A -> Go B) (k' : B -> Go C) st :
  bind (bind m k) k' st = bind m (fun a => bind (k a) k') st.
Proof. unfold bind. by destruct (m st) as [[a|e|msg] st']. Qed.

Ltac run :=
  repeat first
    [ progress simpl
    | progress unfold bind, ret, fail, panic, try, gets, modify, load, deref,
        put_stream, put_ystream, put_ysession in * ].

(** ** [Stream.Close] *)

Lemma yClose_run h y st :
  ystreams st !! h = Some y -> yClose h st = (Ok tt, yclosed h y st).
Proof. intros Hy. unfold yClose. run. by rewrite Hy. Qed.

Lemma Close_run p s y st :
  streams st !! p = Some s ->
  ystreams st !! yStr s = Some y ->
  Close (Some p) st = (Ok tt, yclosed (yStr s) y (released (close s) st)).
Proof.
  intros Hs Hy. unfold Close, call_close. run. rewrite Hs. simpl.
  destruct (close s) as [f|]; simpl; rewrite yClose_run with (y := y); done.
Qed.






(** ** [Session.Close] *)

Lemma close_all_lookup hs (m : gmap nat YStream) h y :
  m !! h = Some y ->
  exists y', close_all hs m !! h = Some y' /\
             y_rx y' = y_rx y /\ y_tx y' = y_tx y /\
             (h ∈ hs \/ y_closed y = true -> y_closed y' = true).
Proof.
  intros Hm. induction hs as [|a hs IH]; simpl.
  - exists y. rewrite Hm. repeat split; auto. intros [Hin|Hc]; [|done].
    by apply not_elem_of_nil in Hin.
  - destruct IH as (y' & Hy' & Hrx & Htx & Hcl).
    rewrite lookup_alter. destruct (decide (a = h)) as [->|Hne].
    + rewrite Hy'. simpl. eexists; split; [reflexivity|]. simpl. auto.
    + exists y'. split; [exact Hy'|]. repeat split; auto.
      intros [Hin|Hc]; apply Hcl; [left|by right].
      apply elem_of_cons in Hin as [->|Hin]; [done|exact Hin].
Qed.

(** C7, as the code has it.  [Session.Close] sends GoAway, shuts the
    multiplexer down and thereby closes every sub-stream of the session, and
    returns no error; it does not touch the porter. *)
Theorem SessionClose_effect s sn st :
  ysessions st !! ys s = Some sn ->
  fst (SessionClose s st) = Ok tt /\
  porter (snd (SessionClose s st)) = porter st /\
  streams (snd (SessionClose s st)) = streams st /\
  (exists sn', ysessions (snd (SessionClose s st)) !! ys s = Some sn' /\
               ysn_goaway sn' = true /\ ysn_shutdown sn' = true) /\
  (forall h y, h ∈ ysn_streams sn -> ystreams st !! h = Some y ->
     exists y', ystreams (snd (SessionClose s st)) !! h = Some y' /\
                y_closed y' = true).
Proof.
  intros Hsn. unfold SessionClose, GoAway, ysClose. run. rewrite Hsn. simpl.
  rewrite lookup_insert_eq. simpl.
  split; [done|]. split; [done|]. split; [done|]. split.
  - eexists. rewrite lookup_insert_eq. split; [reflexivity|]. by simpl.
  - intros h y Hin Hy.
    destruct (close_all_lookup (ysn_streams sn) (ystreams st) h y Hy)
      as (y' & Hy' & _ & _ & Hcl).
    exists y'. split; [exact Hy'|]. apply Hcl. by left.
Qed.

(** ** Session bring-up *)

Lemma Buffered_nonneg r : 0 <= Buffered r.
Proof. unfold Buffered. lia. Qed.

(** C3.  On either side of the session handshake: when the handshake
    completes and the buffered reader still holds unread bytes, the bring-up
    fails with HandshakeResidue and no multiplexer session is created; and a
    session is returned only after a handshake that left the reader empty, the
    multiplexer being started on the connection then. *)
Theorem handshake_residue conn lSK lPK rPK c st :
  conns st !! conn = Some c ->
  (forall n,
     noise_New HandshakeXK (mkConfig lPK lSK rPK true) = inr n ->
     fst (InitiatorHandshake n (mkBuf []) c) = None ->
     0 < Buffered (snd (fst (snd (InitiatorHandshake n (mkBuf []) c)))) ->
     fst (InitiateSession conn lSK lPK rPK st) = Fail HandshakeResidue /\
     ysessions (snd (InitiateSession conn lSK lPK rPK st)) = ysessions st) /\
  (forall n,
     noise_New HandshakeXK (mkConfig lPK lSK 0 false) = inr n ->
     fst (ResponderHandshake n (mkBuf []) c) = None ->
     0 < Buffered (snd (fst (snd (ResponderHandshake n (mkBuf []) c)))) ->
     fst (RespondSession conn lSK lPK st) = Fail HandshakeResidue /\
     ysessions (snd (RespondSession conn lSK lPK st)) = ysessions st) /\
  (forall s,
     fst (InitiateSession conn lSK lPK rPK st) = Ok s ->
     exists n,
       noise_New HandshakeXK (mkConfig lPK lSK rPK true) = inr n /\
       fst (InitiatorHandshake n (mkBuf []) c) = None /\
       Buffered (snd (fst (snd (InitiatorHandshake n (mkBuf []) c)))) = 0 /\
       ysessions (snd (InitiateSession conn lSK lPK rPK st)) !! ys s
       = Some (mkYSession conn true [] [] false false)) /\
  (forall s,
     fst (RespondSession conn lSK lPK st) = Ok s ->
     exists n,
       noise_New HandshakeXK (mkConfig lPK lSK 0 false) = inr n /\
       fst (ResponderHandshake n (mkBuf []) c) = None /\
       Buffered (snd (fst (snd (ResponderHandshake n (mkBuf []) c)))) = 0 /\
       ysessions (snd (RespondSession conn lSK lPK st)) !! ys s
       = Some (mkYSession conn false [] [] false false)).
Proof.
  intros Hc. split; [|split; [|split]].
  - intros n Hn Hhs Hbuf. unfold InitiateSession. rewrite Hn.
    rewrite (bind_load _ _ _ _ Hc), bind_modify, Hhs.
    apply Z.ltb_lt in Hbuf. by rewrite Hbuf.
  - intros n Hn Hhs Hbuf. unfold RespondSession. rewrite Hn.
    rewrite (bind_load _ _ _ _ Hc), bind_modify, Hhs.
    apply Z.ltb_lt in Hbuf. by rewrite Hbuf.
  - intros s. unfold InitiateSession, yamux_start.
    destruct (noise_New HandshakeXK (mkConfig lPK lSK rPK true)) as [e|n];
      [discriminate|].
    run. rewrite Hc. simpl.
    destruct (fst (InitiatorHandshake n (mkBuf []) c)) eqn:Hhs; [discriminate|].
    destruct (Z.ltb_spec 0 (Buffered (snd (fst (snd (InitiatorHandshake n (mkBuf []) c))))))
      as [Hlt|Hge]; [discriminate|].
    simpl. intros [= <-]. exists n. simpl. rewrite lookup_insert_eq.
    pose proof (Buffered_nonneg (snd (fst (snd (InitiatorHandshake n (mkBuf []) c))))).
    repeat split; auto; lia.
  - intros s. unfold RespondSession, yamux_start.
    destruct (noise_New HandshakeXK (mkConfig lPK lSK 0 false)) as [e|n];
      [discriminate|].
    run. rewrite Hc. simpl.
    destruct (fst (ResponderHandshake n (mkBuf []) c)) eqn:Hhs; [discriminate|].
    destruct (Z.ltb_spec 0 (Buffered (snd (fst (snd (ResponderHandshake n (mkBuf []) c))))))
      as [Hlt|Hge]; [discriminate|].
    simpl. intros [= <-]. exists n. simpl. rewrite lookup_insert_eq.
    pose proof (Buffered_nonneg (snd (fst (snd (ResponderHandshake n (mkBuf []) c))))).
    repeat split; auto; lia.
Qed.

(** ** The relay: requests with a foreign source key *)

Lemma readEncryptedGob_run h n y c rest st :
  ystreams st !! h = Some y ->
  y_closed y = false ->
  y_rx y = c :: rest ->
  readEncryptedGob h n st
  = (match c with
     | CSealed k r => if k =? session_key n then Ok r else Fail ErrDecryptFailed
     | CRaw _ => Fail ErrDecodeFailed
     end,
     set_ystreams (<[h := mkYStream rest (y_tx y) false]> (ystreams st)) st).
Proof.
  intros Hy Hc Hrx. unfold readEncryptedGob. run. rewrite Hy. simpl.
  rewrite Hc, Hrx. simpl. destruct c as [k r|b]; [|done].
  by destruct (k =? session_key n).
Qed.

Lemma readEncryptedGob_empty h n y st :
  ystreams st !! h = Some y ->
  y_rx y = [] ->
  exists e, readEncryptedGob h n st = (Fail e, st).
Proof.
  intros Hy Hrx. unfold readEncryptedGob. run. rewrite Hy. simpl.
  rewrite Hrx. destruct (y_closed y); eauto.
Qed.

Lemma readReqGob_run h n y req rest st :
  ystreams st !! h = Some y ->
  y_closed y = false ->
  y_rx y = CSealed (session_key n) (RReq req) :: rest ->
  readReqGob h n st
  = (Ok req, set_ystreams (<[h := mkYStream rest (y_tx y) false]> (ystreams st)) st).
Proof.
  intros Hy Hc Hrx. unfold readReqGob.
  erewrite bind_Ok.
  2:{ erewrite readEncryptedGob_run by eauto. cbn iota. by rewrite Z.eqb_refl. }
  reflexivity.
Qed.

Lemma serverReadRequest_run s y y0 req rest st :
  ystreams st !! y = Some y0 ->
  y_closed y0 = false ->
  y_rx y0 = CSealed (session_key (ns s)) (RReq req) :: rest ->
  serverReadRequest s y st
  = (match Verify (clock st) req 0 with
     | Some _ => Fail ErrReqInvalidTimestamp
     | None => if decide (PK (SrcAddr req) = rPK s) then Ok req
               else Fail ErrReqInvalidSrcPK
     end,
     set_ystreams (<[y := mkYStream rest (y_tx y0) false]> (ystreams st)) st).
Proof.
  intros Hy Hc Hrx. unfold serverReadRequest.
  erewrite bind_Ok by (eapply readReqGob_run; eauto).
  erewrite bind_Ok by reflexivity. simpl.
  destruct (Verify (clock st) req 0); [done|]. by destruct (decide _).
Qed.

(** C4, as the code has it.  A request read on an inbound sub-stream whose
    [SrcAddr.PK] is not the authenticated peer of the session is rejected:
    with [ErrReqInvalidSrcPK] when it passes the timestamp and signature
    verification, with [ErrReqInvalidTimestamp] when that verification fails
    first.  Either way the sub-stream is closed with nothing written back,
    no sub-stream is opened on any session and no other sub-stream changes:
    the request is not forwarded. *)
Theorem foreign_source_rejected s y y0 req rest st :
  ystreams st !! y = Some y0 ->
  y_closed y0 = false ->
  y_rx y0 = CSealed (session_key (ns s)) (RReq req) :: rest ->
  PK (SrcAddr req) <> rPK s ->
  fst (serveStream s y st)
  = Ok (Some (match Verify (clock st) req 0 with
              | Some _ => ErrReqInvalidTimestamp
              | None => ErrReqInvalidSrcPK
              end)) /\
  ystreams (snd (serveStream s y st)) !! y = Some (mkYStream rest (y_tx y0) true) /\
  (forall h, h <> y ->
     ystreams (snd (serveStream s y st)) !! h = ystreams st !! h) /\
  ysessions (snd (serveStream s y st)) = ysessions st /\
  next_handle (snd (serveStream s y st)) = next_handle st.
Proof.
  intros Hy Hc Hrx Hpk.
  assert (Hh : handleServerStream s y st
               = (Fail (match Verify (clock st) req 0 with
                        | Some _ => ErrReqInvalidTimestamp
                        | None => ErrReqInvalidSrcPK
                        end),
                  set_ystreams (<[y := mkYStream rest (y_tx y0) false]> (ystreams st)) st)).
  { unfold handleServerStream. eapply bind_Fail.
    erewrite serverReadRequest_run by eauto.
    destruct (Verify (clock st) req 0); [done|]. by rewrite decide_False. }
  unfold serveStream, try, bind. rewrite Hh.
  erewrite yClose_run by (simpl; apply lookup_insert_eq). simpl.
  rewrite lookup_insert_eq.
  repeat split; auto. intros h Hne. by rewrite !lookup_insert_ne.
Qed.

(** ** The steps of the stream handshake *)

Lemma set_close_run p c s st :
  streams st !! p = Some s ->
  set_close p c st
  = (Ok tt, set_streams (<[p := mkStream (ses s) (yStr s) (lAddr s) (rAddr s)
                                         (s_ns s) (nsConn s) c]> (streams st)) st).
Proof. intros Hs. unfold set_close. by rewrite (bind_load _ _ _ _ Hs). Qed.

Lemma set_ns_run p n s st :
  streams st !! p = Some s ->
  set_ns p n st
  = (Ok tt, set_streams (<[p := mkStream (ses s) (yStr s) (lAddr s) (rAddr s)
                                         (Some n) (nsConn s) (close s)]> (streams st)) st).
Proof. intros Hs. unfold set_ns. by rewrite (bind_load _ _ _ _ Hs). Qed.

Lemma prepareFields_run p init la ra s st :
  streams st !! p = Some s ->
  prepareFields p init la ra st
  = match noise_New HandshakeKK (mkConfig (lPK (ses s)) (lSK (ses s)) (PK ra) init) with
    | inl _ => (Panic "Failed to prepare stream noise object.", st)
    | inr n =>
        (Ok tt, set_streams (<[p := mkStream (ses s) (yStr s) la ra (Some n)
                                             (Some (yStr s)) (close s)]> (streams st)) st)
    end.
Proof.
  intros Hs. unfold prepareFields. rewrite (bind_load _ _ _ _ Hs).
  by destruct (noise_New _ _).
Qed.

Lemma makeHandshakeMessage_run p s n st :
  streams st !! p = Some s ->
  s_ns s = Some n ->
  makeHandshakeMessage p st
  = (match fst (MakeHandshakeMessage n) with
     | inl e => Fail e
     | inr msg => Ok msg
     end,
     set_streams (<[p := mkStream (ses s) (yStr s) (lAddr s) (rAddr s)
                                  (Some (snd (MakeHandshakeMessage n)))
                                  (nsConn s) (close s)]> (streams st)) st).
Proof.
  intros Hs Hn. unfold makeHandshakeMessage.
  rewrite (bind_load _ _ _ _ Hs), (bind_deref _ _ _ _ Hn).
  erewrite bind_Ok by (eapply set_ns_run; eauto).
  by destruct (fst (MakeHandshakeMessage n)).
Qed.

Lemma processHandshakeMessage_run p s n msg st :
  streams st !! p = Some s ->
  s_ns s = Some n ->
  processHandshakeMessage p msg st
  = (match fst (ProcessHandshakeMessage n msg) with
     | Some e => Fail e
     | None => Ok tt
     end,
     set_streams (<[p := mkStream (ses s) (yStr s) (lAddr s) (rAddr s)
                                  (Some (snd (ProcessHandshakeMessage n msg)))
                                  (nsConn s) (close s)]> (streams st)) st).
Proof.
  intros Hs Hn. unfold processHandshakeMessage.
  rewrite (bind_load _ _ _ _ Hs), (bind_deref _ _ _ _ Hn).
  erewrite bind_Ok by (eapply set_ns_run; eauto).
  by destruct (fst (ProcessHandshakeMessage n msg)).
Qed.

Lemma writeEncryptedGob_run h n r y st :
  ystreams st !! h = Some y ->
  writeEncryptedGob h n r st
  = if y_closed y then (Fail ErrStreamClosed, st)
    else (Ok tt, set_ystreams
                   (<[h := mkYStream (y_rx y) (y_tx y ++ [CSealed (session_key n) r]) false]>
                      (ystreams st)) st).
Proof.
  intros Hy. unfold writeEncryptedGob. rewrite (bind_load _ _ _ _ Hy).
  by destruct (y_closed y).
Qed.

Lemma readRespGob_run h n y resp rest st :
  ystreams st !! h = Some y ->
  y_closed y = false ->
  y_rx y = CSealed (session_key n) (RResp resp) :: rest ->
  readRespGob h n st
  = (Ok resp, set_ystreams (<[h := mkYStream rest (y_tx y) false]> (ystreams st)) st).
Proof.
  intros Hy Hc Hrx. unfold readRespGob.
  erewrite bind_Ok.
  2:{ erewrite readEncryptedGob_run by eauto. cbn iota. by rewrite Z.eqb_refl. }
  reflexivity.
Qed.

(** ** [writeRequest] once the port is reserved *)

Lemma writeRequest_reserved p ra s y st q f P' o st' :
  streams st !! p = Some s ->
  ystreams st !! yStr s = Some y ->
  ReserveEphemeral (rand st) (EStream p) (porter st) = (inr (q, f), P') ->
  writeRequest p ra st = (o, st') ->
  porter st' = P' /\ trace st' = trace st /\
  (exists s',
     streams st' !! p = Some s' /\
     close s' = Some f /\ yStr s' = yStr s /\ ses s' = ses s /\
     forall req, o = Ok req ->
       lAddr s' = mkAddr (lPK (ses s)) q /\ rAddr s' = ra /\ is_Some (s_ns s') /\
       req = Sign (lSK (ses s))
                  (mkReq (clock st) (mkAddr (lPK (ses s)) q) ra (NoiseMsg req) 0)) /\
  (exists y',
     ystreams st' !! yStr s = Some y' /\
     y_rx y' = y_rx y /\
     forall req, o = Ok req ->
       y_closed y' = false /\
       y_tx y' = y_tx y ++ [CSealed (session_key (ns (ses s))) (RReq req)]).
Proof.
  intros Hs Hy Hres Hrun. unfold writeRequest in Hrun.
  rewrite !bind_gets, Hres, bind_modify in Hrun. cbn [fst snd] in Hrun.
  erewrite bind_Ok in Hrun by (eapply set_close_run; simpl; eauto).
  erewrite bind_load in Hrun by (simpl; apply lookup_insert_eq). cbn [ses lPK] in Hrun.
  unfold bind at 1 in Hrun.
  erewrite prepareFields_run in Hrun by (simpl; apply lookup_insert_eq).
  cbn [ses lPK lSK yStr close] in Hrun.
  destruct (noise_New HandshakeKK _) as [e|n].
  { injection Hrun as <- <-. simpl. rewrite lookup_insert_eq.
    do 2 (split; [done|]). split.
    - eexists; split; [reflexivity|]. repeat split; congruence.
    - exists y. repeat split; congruence. }
  unfold bind at 1 in Hrun.
  erewrite makeHandshakeMessage_run in Hrun by (simpl; rewrite ?lookup_insert_eq; eauto).
  cbn [ses lPK lSK yStr close lAddr rAddr nsConn] in Hrun.
  destruct (MakeHandshakeMessage n) as [[e|msg] n']; cbn [fst snd] in Hrun.
  { injection Hrun as <- <-. simpl. rewrite lookup_insert_eq.
    do 2 (split; [done|]). split.
    - eexists; split; [reflexivity|]. repeat split; congruence.
    - exists y. repeat split; congruence. }
  erewrite bind_load in Hrun by (simpl; apply lookup_insert_eq).
  rewrite bind_gets in Hrun.
  cbn [ses lPK lSK yStr close lAddr rAddr nsConn] in Hrun.
  unfold bind at 1 in Hrun.
  erewrite writeEncryptedGob_run in Hrun by (simpl; eauto).
  destruct (y_closed y) eqn:Hcl.
  { injection Hrun as <- <-. simpl. rewrite lookup_insert_eq.
    do 2 (split; [done|]). split.
    - eexists; split; [reflexivity|]. repeat split; congruence.
    - exists y. repeat split; congruence. }
  injection Hrun as <- <-. simpl. rewrite !lookup_insert_eq.
  do 2 (split; [done|]). split.
  - eexists; split; [reflexivity|]. do 3 (split; [done|]).
    intros req [= <-]. simpl. repeat split; eauto.
  - eexists; split; [reflexivity|]. split; [done|].
    intros req [= <-]. by simpl.
Qed.

(** ** Reading a sealed record: every outcome *)

Lemma readEncryptedGob_cases h n y st :
  ystreams st !! h = Some y ->
  (exists e, readEncryptedGob h n st = (Fail e, st) /\
             (y_closed y = true \/ y_rx y = [])) \/
  (exists c rest,
     y_closed y = false /\ y_rx y = c :: rest /\
     readEncryptedGob h n st
     = (match c with
        | CSealed k r => if k =? session_key n then Ok r else Fail ErrDecryptFailed
        | CRaw _ => Fail ErrDecodeFailed
        end,
        set_ystreams (<[h := mkYStream rest (y_tx y) false]> (ystreams st)) st)).
Proof.
  intros Hy. destruct (y_closed y) eqn:Hc.
  - left. exists ErrStreamClosed. split; [|by left].
    unfold readEncryptedGob. rewrite (bind_load _ _ _ _ Hy). by rewrite Hc.
  - destruct (y_rx y) as [|c rest] eqn:Hrx.
    + left. exists ErrEOF. split; [|by right].
      unfold readEncryptedGob. rewrite (bind_load _ _ _ _ Hy). by rewrite Hc, Hrx.
    + right. exists c, rest. repeat split; auto.
      by eapply readEncryptedGob_run.
Qed.

(** [readResponse]: it never touches the porter, the trace or the fields of
    the stream other than the noise state, and it returns no error only for
    a response that is next on the sub-stream, sealed under the session key,
    and verified against the request. *)
Lemma readResponse_cases p req s y st o st' :
  streams st !! p = Some s ->
  ystreams st !! yStr s = Some y ->
  readResponse p req st = (o, st') ->
  porter st' = porter st /\ trace st' = trace st /\
  (exists s', streams st' !! p = Some s' /\ close s' = close s /\
              yStr s' = yStr s /\ ses s' = ses s /\
              lAddr s' = lAddr s /\ rAddr s' = rAddr s) /\
  (exists y', ystreams st' !! yStr s = Some y' /\ y_tx y' = y_tx y /\
              y_closed y' = y_closed y) /\
  (forall u, o = Ok u ->
     exists resp rest,
       y_closed y = false /\
       y_rx y = CSealed (session_key (ns (ses s))) (RResp resp) :: rest /\
       VerifyResp resp (PK (DstAddr req)) (Hash req) = None) /\
  (forall e, o = Fail e -> streams st' = streams st \/
     exists resp rest,
       y_rx y = CSealed (session_key (ns (ses s))) (RResp resp) :: rest /\
       VerifyResp resp (PK (DstAddr req)) (Hash req) = None).
Proof.
  intros Hs Hy Hrun. unfold readResponse in Hrun.
  rewrite (bind_load _ _ _ _ Hs) in Hrun. unfold readRespGob in Hrun.
  rewrite bind_assoc in Hrun. unfold bind at 1 in Hrun.
  destruct (readEncryptedGob_cases (yStr s) (ns (ses s)) y st Hy)
    as [(e & He & _)|(c & rest & Hc & Hrx & He)]; rewrite He in Hrun.
  { injection Hrun as <- <-. repeat split; eauto 10; congruence. }
  assert (Hframe : forall o0,
            let st0 := set_ystreams (<[yStr s := mkYStream rest (y_tx y) false]> (ystreams st)) st in
            (o0, st0) = (o, st') ->
            (forall u : unit, o0 <> Ok u) ->
            (forall e, o0 = Fail e -> streams st0 = streams st) ->
            (porter st' = porter st /\ trace st' = trace st /\
             (exists s', streams st' !! p = Some s' /\ close s' = close s /\
                yStr s' = yStr s /\ ses s' = ses s /\
                lAddr s' = lAddr s /\ rAddr s' = rAddr s) /\
             (exists y', ystreams st' !! yStr s = Some y' /\ y_tx y' = y_tx y /\
                y_closed y' = y_closed y) /\
             (forall u, o = Ok u ->
                exists resp rest,
                  y_closed y = false /\
                  y_rx y = CSealed (session_key (ns (ses s))) (RResp resp) :: rest /\
                  VerifyResp resp (PK (DstAddr req)) (Hash req) = None) /\
             (forall e, o = Fail e -> streams st' = streams st \/
                exists resp rest,
                  y_rx y = CSealed (session_key (ns (ses s))) (RResp resp) :: rest /\
                  VerifyResp resp (PK (DstAddr req)) (Hash req) = None))).
  { intros o0 st0 [= <- <-] Hno Hfail. subst st0. simpl. rewrite lookup_insert_eq.
    repeat split; eauto 10.
    intros u ->. by destruct (Hno u). }
  destruct c as [k r|b]; cbv beta iota in Hrun;
    [|by eapply Hframe; [exact Hrun|..]].
  destruct (Z.eqb_spec k (session_key (ns (ses s)))) as [->|Hk];
    cbv beta iota in Hrun; [|by eapply Hframe; [exact Hrun|..]].
  destruct r as [q|resp]; unfold bind at 1, fail, ret in Hrun;
    cbv beta iota in Hrun; [by eapply Hframe; [exact Hrun|..]|].
  destruct (VerifyResp resp (PK (DstAddr req)) (Hash req)) as [e|] eqn:Hv;
    [by eapply Hframe; [exact Hrun|..]|].
  destruct (s_ns s) as [n|] eqn:Hn.
  - erewrite processHandshakeMessage_run in Hrun by (simpl; eauto).
    injection Hrun as <- <-. simpl. rewrite lookup_insert_eq.
    split; [done|]. split; [done|]. split; [eauto 10|]. split.
    { exists (mkYStream rest (y_tx y) false). by rewrite lookup_insert_eq. }
    split.
    + intros u _. exists resp, rest. by rewrite Hrx.
    + intros e _. right. exists resp, rest. by rewrite Hrx.
  - unfold processHandshakeMessage in Hrun.
    erewrite bind_load in Hrun by (simpl; eauto). rewrite Hn in Hrun.
    injection Hrun as <- <-. simpl. rewrite lookup_insert_eq.
    repeat split; eauto 10; congruence.
Qed.

(** ** The dial *)

Lemma newInitiatingStream_run cs sn st :
  ysessions st !! ys cs = Some sn ->
  ysn_shutdown sn = false ->
  exists st1,
    newInitiatingStream cs st = (Ok (next_handle st), st1) /\
    porter st1 = porter st /\ rand st1 = rand st /\ clock st1 = clock st /\
    trace st1 = trace st /\
    streams st1 !! next_handle st
    = Some (mkStream cs (next_handle st) zeroAddr zeroAddr None None None) /\
    ystreams st1 !! next_handle st
    = Some (mkYStream (inbound st (next_handle st)) [] false).
Proof.
  intros Hsn Hsh. unfold newInitiatingStream, OpenStream.
  rewrite bind_assoc, (bind_load _ _ _ _ Hsn), Hsh.
  eexists. split; [reflexivity|]. simpl. by rewrite !lookup_insert_eq.
Qed.

(** What a dial comes to once its port [q] is reserved with release closure
    [f].  If it returns the stream, the response that arrived was verified
    against the request that was written and the stream holds the
    reservation; if it returns an error, the closure was called and the
    sub-stream closed. *)
Lemma DialStream_cases cs dst sn st q f P' o st' :
  ysessions st !! ys cs = Some sn ->
  ysn_shutdown sn = false ->
  ReserveEphemeral (rand st) (EStream (next_handle st)) (porter st) = (inr (q, f), P') ->
  DialStream cs dst st = (o, st') ->
  match o with
  | Ok p =>
      p = next_handle st /\ porter st' = P' /\ trace st' = trace st /\
      exists s' req y' resp rest,
        streams st' !! p = Some s' /\
        close s' = Some f /\ yStr s' = p /\ ses s' = cs /\
        lAddr s' = mkAddr (lPK cs) q /\ rAddr s' = dst /\
        req = Sign (lSK cs) (mkReq (clock st) (mkAddr (lPK cs) q) dst (NoiseMsg req) 0) /\
        inbound st p = CSealed (session_key (ns cs)) (RResp resp) :: rest /\
        VerifyResp resp (PK dst) (Hash req) = None /\
        ystreams st' !! p = Some y' /\
        y_tx y' = [CSealed (session_key (ns cs)) (RReq req)] /\
        y_closed y' = false
  | Fail e =>
      porter st' = release f P' /\
      trace st' = trace st ++ [EvFree f; EvYClose (next_handle st)] /\
      exists y', ystreams st' !! next_handle st = Some y' /\ y_closed y' = true
  | Panic _ => True
  end.
Proof.
  intros Hsn Hsh Hres Hrun.
  destruct (newInitiatingStream_run cs sn st Hsn Hsh)
    as (st1 & Hnew & Hp1 & Hr1 & Hc1 & Ht1 & Hs1 & Hy1).
  unfold DialStream in Hrun. rewrite (bind_Ok _ _ _ _ _ Hnew) in Hrun.
  set (h := next_handle st) in *.
  assert (Hclose : forall st4 s4 y4 e,
            streams st4 !! h = Some s4 -> close s4 = Some f -> yStr s4 = h ->
            ystreams st4 !! h = Some y4 -> porter st4 = P' -> trace st4 = trace st ->
            bind (try (Close (Some h))) (fun _ => fail e) st4 = (o, st') ->
            match o with
            | Ok p => False
            | Fail _ =>
                porter st' = release f P' /\
                trace st' = trace st ++ [EvFree f; EvYClose h] /\
                exists y', ystreams st' !! h = Some y' /\ y_closed y' = true
            | Panic _ => True
            end).
  { intros st4 s4 y4 e H4 Hc4 Hys4 Hy4 Hp4 Ht4. unfold bind, try.
    erewrite Close_run by (rewrite ?Hys4; eauto).
    rewrite Hc4, Hys4. intros [= <- <-]. simpl.
    rewrite Hp4, Ht4, lookup_insert_eq, <- app_assoc. eauto. }
  unfold bind at 1, try at 1 in Hrun.
  destruct (bind (writeRequest h dst) (fun req => readResponse h req) st1)
    as [o2 st3] eqn:Hhs.
  unfold bind in Hhs.
  destruct (writeRequest h dst st1) as [o1 st2] eqn:Hw.
  rewrite <- Hr1, <- Hp1 in Hres.
  destruct (writeRequest_reserved h dst _ _ st1 q f P' o1 st2 Hs1 Hy1 Hres Hw)
    as (Hp2 & Ht2 & (s2 & Hs2 & Hcl2 & Hys2 & Hses2 & Hok2) & (y2 & Hy2 & Hrx2 & Htx2)).
  simpl in Hys2, Hses2, Hy2, Hrx2, Htx2, Hok2.
  destruct o1 as [req|e|msg].
  - rewrite <- Hys2 in Hy2.
    destruct (readResponse_cases h req s2 y2 st2 o2 st3 Hs2 Hy2 Hhs)
      as (Hp3 & Ht3 & (s3 & Hs3 & Hcl3 & Hys3 & Hses3 & Hla3 & Hra3)
          & (y3 & Hy3 & Htx3 & Hc3) & Hok3 & _).
    destruct (Hok2 req eq_refl) as (Hla2 & Hra2 & _ & Hreq).
    destruct (Htx2 req eq_refl) as (Hc2 & Htx2').
    rewrite Hys2 in *.
    destruct o2 as [u|e|msg].
    + injection Hrun as <- <-.
      destruct (Hok3 u eq_refl) as (resp & rest & _ & Hrx & Hv).
      split; [done|]. split; [congruence|]. split; [congruence|].
      exists s3, req, y3, resp, rest.
      rewrite Hc1 in Hreq.
      assert (Hdst : DstAddr req = dst) by (by rewrite Hreq).
      rewrite Hdst in Hv. rewrite Hrx2, Hses2 in Hrx.
      repeat split; try congruence.
    + assert (Hx := Hclose st3 s3 y3 e).
      destruct o; [exfalso|..]; (eapply Hx; eauto; congruence) || exact I.
    + by injection Hrun as <- <-.
  - injection Hhs as <- <-. assert (Hx := Hclose st2 s2 y2 e).
    destruct o; [exfalso|..]; (eapply Hx; eauto; congruence) || exact I.
  - injection Hhs as <- <-. by injection Hrun as <- <-.
Qed.

(** C6.  Once the dial has reserved its ephemeral port [q], any error it
    returns (from the handshake-message generation, the request write, the
    response read or the response verification) comes after the release
    closure was called, which removes the reservation and leaves the porter's
    mappings as they were before the dial, and after the sub-stream was
    closed. *)
Theorem dial_failure_releases cs dst sn st q f P' e st' :
  ysessions st !! ys cs = Some sn ->
  ysn_shutdown sn = false ->
  ReserveEphemeral (rand st) (EStream (next_handle st)) (porter st) = (inr (q, f), P') ->
  DialStream cs dst st = (Fail e, st') ->
  PortValue q (porter st') = None /\
  ports (porter st') = ports (porter st) /\
  trace st' = trace st ++ [EvFree f; EvYClose (next_handle st)] /\
  exists y', ystreams st' !! next_handle st = Some y' /\ y_closed y' = true.
Proof.
  intros Hsn Hsh Hres Hrun.
  destruct (DialStream_cases _ _ _ _ _ _ _ _ _ Hsn Hsh Hres Hrun) as (Hp & Ht & Hy).
  destruct (release_reserved _ _ _ _ _ _ Hres) as (Hports & Hq & _).
  unfold PortValue. rewrite Hp. auto.
Qed.

(** ** Verification of the response *)

Lemma VerifyResp_None resp pk h :
  VerifyResp resp pk h = None ->
  ReqHash resp = h /\ verify_payload pk (RespSig resp) (RespDigest resp) = true /\
  Accepted resp = true.
Proof.
  unfold VerifyResp.
  destruct (Z.eqb_spec (ReqHash resp) h); [|discriminate]. simpl.
  destruct (verify_payload _ _ _); [|discriminate]. simpl.
  by destruct (Accepted resp).
Qed.

Lemma writeRequest_noport p ra s st e P' :
  streams st !! p = Some s ->
  ReserveEphemeral (rand st) (EStream p) (porter st) = (inl e, P') ->
  exists st', writeRequest p ra st = (Fail e, st').
Proof.
  intros Hs Hres. unfold writeRequest.
  rewrite !bind_gets, Hres, bind_modify. cbn [fst snd].
  erewrite bind_Ok by (eapply set_close_run; simpl; eauto). eauto.
Qed.

(** A dial that returns a stream has reserved its port. *)
Lemma DialStream_Ok_reserved cs dst st p st' :
  DialStream cs dst st = (Ok p, st') ->
  exists sn q f P',
    ysessions st !! ys cs = Some sn /\ ysn_shutdown sn = false /\
    ReserveEphemeral (rand st) (EStream (next_handle st)) (porter st)
    = (inr (q, f), P').
Proof.
  intros Hrun.
  destruct (ysessions st !! ys cs) as [sn|] eqn:Hsn.
  2:{ unfold DialStream, newInitiatingStream, OpenStream in Hrun.
      rewrite !bind_assoc in Hrun. unfold bind at 1, load in Hrun.
      by rewrite Hsn in Hrun. }
  destruct (ysn_shutdown sn) eqn:Hsh.
  { unfold DialStream, newInitiatingStream, OpenStream in Hrun.
    rewrite !bind_assoc, (bind_load _ _ _ _ Hsn), Hsh in Hrun.
    discriminate. }
  destruct (ReserveEphemeral (rand st) (EStream (next_handle st)) (porter st))
    as [[e|[q f]] P'] eqn:Hres; [|by eauto 10].
  exfalso.
  destruct (newInitiatingStream_run cs sn st Hsn Hsh)
    as (st1 & Hnew & Hp1 & Hr1 & _ & _ & Hs1 & _).
  unfold DialStream in Hrun. rewrite (bind_Ok _ _ _ _ _ Hnew) in Hrun.
  rewrite <- Hr1, <- Hp1 in Hres.
  destruct (writeRequest_noport _ dst _ _ _ _ Hs1 Hres) as (st2 & Hw).
  unfold bind at 1, try at 1 in Hrun.
  rewrite (bind_Fail _ _ _ _ _ Hw) in Hrun.
  unfold bind, try in Hrun.
  by destruct (Close _ st2) as [[]].
Qed.


(** ** The accepting side *)

Lemma readReqGob_cases h n y st o st' :
  ystreams st !! h = Some y ->
  readReqGob h n st = (o, st') ->
  (forall msg, o <> Panic msg) /\
  (st' = st /\ (forall req, o <> Ok req) \/
   exists c rest,
     y_closed y = false /\ y_rx y = c :: rest /\
     st' = set_ystreams (<[h := mkYStream rest (y_tx y) false]> (ystreams st)) st /\
     forall req, o = Ok req -> c = CSealed (session_key n) (RReq req)).
Proof.
  intros Hy Hrun. unfold readReqGob, bind in Hrun.
  destruct (readEncryptedGob_cases h n y st Hy)
    as [(e & He & _)|(c & rest & Hc & Hrx & He)]; rewrite He in Hrun.
  { injection Hrun as <- <-. split; [done|]. left. done. }
  split.
  - destruct c as [k r|b]; [|by injection Hrun as <- <-].
    destruct (k =? session_key n); [|by injection Hrun as <- <-].
    destruct r; by injection Hrun as <- <-.
  - right. exists c, rest. do 2 (split; [done|]).
    destruct c as [k r|b]; [|by injection Hrun as <- <-].
    destruct (Z.eqb_spec k (session_key n)) as [->|Hk];
      [|by injection Hrun as <- <-].
    destruct r; injection Hrun as <- <-; split; try done.
    by intros req [= <-].
Qed.

(** [readRequest] reserves nothing: the porter, the listeners and the
    stream's release closure are as before; on success the local address is
    the request's destination and the remote address its source. *)
(** Runs the leading state reads and updates of a run equation. *)
Ltac norm_in H :=
  repeat first [ rewrite bind_assoc in H | rewrite bind_gets in H
               | rewrite bind_modify in H | rewrite bind_ret in H ].

(** Closes a branch in which the run has already ended without a value. *)
Ltac leaf Hleaf Hrun :=
  cbv beta iota in Hrun; unfold fail, panic in Hrun;
  eapply Hleaf; [|exact Hrun]; done.

Lemma readRequest_cases p s y st o st' :
  streams st !! p = Some s ->
  ystreams st !! yStr s = Some y ->
  readRequest p st = (o, st') ->
  porter st' = porter st /\ listeners st' = listeners st /\ trace st' = trace st /\
  (exists s',
     streams st' !! p = Some s' /\ close s' = close s /\
     yStr s' = yStr s /\ ses s' = ses s /\
     forall req, o = Ok req ->
       lAddr s' = DstAddr req /\ rAddr s' = SrcAddr req /\ is_Some (s_ns s')) /\
  (exists y',
     ystreams st' !! yStr s = Some y' /\ y_tx y' = y_tx y /\
     y_closed y' = y_closed y) /\
  (forall req, o = Ok req ->
     exists rest,
       y_closed y = false /\
       y_rx y = CSealed (session_key (ns (ses s))) (RReq req) :: rest /\
       Verify (clock st) req 0 = None /\ PK (DstAddr req) = lPK (ses s)).
Proof.
  intros Hs Hy Hrun. unfold readRequest in Hrun.
  rewrite (bind_load _ _ _ _ Hs) in Hrun. unfold bind at 1 in Hrun.
  destruct (readReqGob (yStr s) (ns (ses s)) st) as [o1 st1] eqn:Hread.
  destruct (readReqGob_cases _ _ _ _ _ _ Hy Hread) as [Hnp Hcases].
  assert (Hst1 : porter st1 = porter st /\ listeners st1 = listeners st /\
                 trace st1 = trace st /\ streams st1 = streams st /\
                 clock st1 = clock st /\
                 exists y', ystreams st1 !! yStr s = Some y' /\
                            y_tx y' = y_tx y /\ y_closed y' = y_closed y).
  { destruct Hcases as [[-> _]|(c & rest & Hc & Hrx & -> & _)].
    - repeat split; eauto.
    - simpl. rewrite lookup_insert_eq. repeat split; eauto. }
  destruct Hst1 as (Hp1 & Hl1 & Ht1 & Hs1 & Hc1 & Hy1).
  assert (Hleaf : forall o0, (forall req, o0 <> Ok req) -> (o0, st1) = (o, st') ->
            porter st' = porter st /\ listeners st' = listeners st /\
            trace st' = trace st /\
            (exists s',
               streams st' !! p = Some s' /\ close s' = close s /\
               yStr s' = yStr s /\ ses s' = ses s /\
               forall req, o = Ok req ->
                 lAddr s' = DstAddr req /\ rAddr s' = SrcAddr req /\ is_Some (s_ns s')) /\
            (exists y',
               ystreams st' !! yStr s = Some y' /\ y_tx y' = y_tx y /\
               y_closed y' = y_closed y) /\
            (forall req, o = Ok req ->
               exists rest,
                 y_closed y = false /\
                 y_rx y = CSealed (session_key (ns (ses s))) (RReq req) :: rest /\
                 Verify (clock st) req 0 = None /\ PK (DstAddr req) = lPK (ses s))).
  { intros o0 Hno [= <- <-]. do 3 (split; [done|]). split; [|split; [done|]].
    - exists s. rewrite Hs1. do 4 (split; [done|]).
      intros req ->. by destruct (Hno req).
    - intros req ->. by destruct (Hno req). }
  destruct o1 as [req|e|msg]; [|by leaf Hleaf Hrun|by destruct (Hnp msg)].
  destruct Hcases as [[_ Hno]|(c & rest & Hc & Hrx & Hst & Hok)];
    [by destruct (Hno req)|].
  rewrite (Hok req eq_refl) in Hrx.
  rewrite bind_gets in Hrun.
  destruct (Verify (clock st1) req 0) eqn:Hv; [by leaf Hleaf Hrun|].
  destruct (decide (PK (DstAddr req) = lPK (ses s))) as [Hpk|Hpk];
    [|by leaf Hleaf Hrun].
  unfold bind at 1 in Hrun.
  erewrite prepareFields_run in Hrun by (rewrite Hs1; eauto).
  destruct (noise_New HandshakeKK _) as [e|n]; [by leaf Hleaf Hrun|].
  unfold bind at 1 in Hrun.
  erewrite processHandshakeMessage_run in Hrun
    by (simpl; rewrite ?lookup_insert_eq; eauto).
  cbn [ses yStr lAddr rAddr nsConn close] in Hrun.
  destruct Hy1 as (y1 & Hy1 & Htx1 & Hcl1).
  destruct (fst (ProcessHandshakeMessage n (NoiseMsg req))) as [e|].
  - injection Hrun as <- <-. simpl. rewrite lookup_insert_eq.
    do 3 (split; [done|]). split.
    + eexists; split; [reflexivity|]. repeat split; congruence.
    + split; [eauto|]. congruence.
  - injection Hrun as <- <-. simpl. rewrite lookup_insert_eq.
    do 3 (split; [done|]). split.
    + eexists; split; [reflexivity|]. do 3 (split; [done|]).
      intros ? [= <-]. simpl. eauto.
    + split; [eauto|]. intros ? [= <-]. exists rest.
      rewrite <- Hc1. auto.
Qed.

(** [writeResponse] reserves nothing either, and writes a response only
    when the local port resolves to a listener. *)
Lemma writeResponse_cases p req s st o st' :
  streams st !! p = Some s ->
  writeResponse p req st = (o, st') ->
  porter st' = porter st /\ trace st' = trace st /\
  (exists s',
     streams st' !! p = Some s' /\ close s' = close s /\
     yStr s' = yStr s /\ ses s' = ses s /\
     lAddr s' = lAddr s /\ rAddr s' = rAddr s) /\
  (forall u, o = Ok u ->
     exists l lis y msg,
       PortValue (Port (lAddr s)) (porter st) = Some (EListener l) /\
       listeners st !! l = Some lis /\
       listeners st' !! l = Some (mkListener (l_inbox lis ++ [p]) (l_cap lis) false) /\
       ystreams st !! yStr s = Some y /\
       ystreams st' !! yStr s
       = Some (mkYStream (y_rx y)
                 (y_tx y ++ [CSealed (session_key (ns (ses s)))
                               (RResp (SignResp (lSK (ses s))
                                         (mkResp (Hash req) true msg 0)))])
                 false)) /\
  ((forall l, PortValue (Port (lAddr s)) (porter st) <> Some (EListener l)) ->
   o = Fail ErrReqNoListener /\ st' = st).
Proof.
  intros Hs Hrun. unfold writeResponse in Hrun.
  rewrite (bind_load _ _ _ _ Hs), bind_gets in Hrun.
  destruct (PortValue (Port (lAddr s)) (porter st)) as [[l|x]|] eqn:Hpv.
  2,3: injection Hrun as <- <-; repeat split; eauto 10; congruence.
  match goal with |- ?G =>
    assert (Hleaf : forall o0 st0,
              (forall u : unit, o0 <> Ok u) ->
              (o0, st0) = (o, st') ->
              porter st0 = porter st -> trace st0 = trace st ->
              (exists s',
                 streams st0 !! p = Some s' /\ close s' = close s /\
                 yStr s' = yStr s /\ ses s' = ses s /\
                 lAddr s' = lAddr s /\ rAddr s' = rAddr s) ->
              G)
  end.
  { intros o0 st0 Hno [= <- <-] Hp0 Ht0 Hs0. do 3 (split; [done|]). split.
    - intros u ->. by destruct (Hno u).
    - intros Hnl. by destruct (Hnl l). }
  unfold bind at 1 in Hrun.
  destruct (s_ns s) as [n|] eqn:Hn.
  2:{ unfold makeHandshakeMessage in Hrun.
      rewrite (bind_load _ _ _ _ Hs), Hn in Hrun.
      unfold bind, deref, panic in Hrun. cbv beta iota in Hrun.
      eapply Hleaf; [|exact Hrun|..]; eauto 10. }
  erewrite makeHandshakeMessage_run in Hrun by eauto.
  destruct (fst (MakeHandshakeMessage n)) as [e|msg].
  { cbv beta iota in Hrun. unfold fail in Hrun.
    eapply Hleaf; [|exact Hrun|..]; try done.
    simpl. rewrite lookup_insert_eq. eauto 10. }
  unfold bind at 1 in Hrun.
  destruct (ystreams st !! yStr s) as [y|] eqn:Hy.
  2:{ unfold writeEncryptedGob, bind, load in Hrun. simpl in Hrun.
      rewrite Hy in Hrun. simpl in Hrun.
      cbv beta iota in Hrun. unfold fail, panic in Hrun.
      eapply Hleaf; [|exact Hrun|..]; try done.
      simpl. rewrite lookup_insert_eq. eauto 10. }
  erewrite writeEncryptedGob_run in Hrun by (simpl; eauto).
  destruct (y_closed y).
  { cbv beta iota in Hrun. unfold fail in Hrun.
    eapply Hleaf; [|exact Hrun|..]; try done.
    simpl. rewrite lookup_insert_eq. eauto 10. }
  unfold introduceStream in Hrun.
  destruct (listeners st !! l) as [lis|] eqn:Hl.
  2:{ unfold bind, load in Hrun. simpl in Hrun. rewrite Hl in Hrun. simpl in Hrun.
      cbv beta iota in Hrun. unfold fail, panic in Hrun.
      eapply Hleaf; [|exact Hrun|..]; try done.
      simpl. rewrite lookup_insert_eq. eauto 10. }
  erewrite bind_load in Hrun by (simpl; eauto).
  destruct (l_closed lis).
  { cbv beta iota in Hrun. unfold fail in Hrun.
    eapply Hleaf; [|exact Hrun|..]; try done.
    simpl. rewrite lookup_insert_eq. eauto 10. }
  destruct (l_cap lis <=? length (l_inbox lis))%nat.
  { cbv beta iota in Hrun. unfold fail in Hrun.
    eapply Hleaf; [|exact Hrun|..]; try done.
    simpl. rewrite lookup_insert_eq. eauto 10. }
  injection Hrun as <- <-. simpl. rewrite !lookup_insert_eq.
  do 2 (split; [done|]). split; [eauto 10|]. split.
  - intros u _. exists l, lis, y, msg.
    repeat split; rewrite ?lookup_insert_eq; auto.
  - intros Hnl. by destruct (Hnl l).
Qed.

(** ** Reservations *)

(** C5, as the code has it.  A stream returned by a dial holds exactly one
    porter reservation: the ephemeral port [q] in [49152, 65535] that
    [writeRequest] reserved is the only port bound to the stream, it is the
    port of the stream's local address and the port its release closure
    frees, and closing the stream removes it, leaving the porter's mappings as
    they were before the dial.  A stream on the accepting side reserves
    nothing: after [readRequest] and [writeResponse] the porter is as before,
    the stream has no release closure, and its local address is the request's
    [DstAddr], whose port is the listener's own. *)
Theorem reservation_per_stream :
  (forall cs dst sn st q f P' p st',
     ysessions st !! ys cs = Some sn ->
     ysn_shutdown sn = false ->
     ReserveEphemeral (rand st) (EStream (next_handle st)) (porter st)
     = (inr (q, f), P') ->
     (forall port, PortValue port (porter st) <> Some (EStream (next_handle st))) ->
     DialStream cs dst st = (Ok p, st') ->
     (forall port, PortValue port (porter st') = Some (EStream p) <-> port = q) /\
     minEph <= q <= maxPort /\
     (exists s', streams st' !! p = Some s' /\ close s' = Some f /\
                 fr_port f = q /\ lAddr s' = mkAddr (lPK cs) q) /\
     fst (Close (Some p) st') = Ok tt /\
     ports (porter (snd (Close (Some p) st'))) = ports (porter st) /\
     (forall port,
        PortValue port (porter (snd (Close (Some p) st'))) <> Some (EStream p))) /\
  (forall p s y st req st1 st2,
     streams st !! p = Some s ->
     ystreams st !! yStr s = Some y ->
     close s = None ->
     readRequest p st = (Ok req, st1) ->
     writeResponse p req st1 = (Ok tt, st2) ->
     porter st2 = porter st /\
     exists s2 l,
       streams st2 !! p = Some s2 /\ close s2 = None /\
       lAddr s2 = DstAddr req /\ rAddr s2 = SrcAddr req /\
       PortValue (Port (lAddr s2)) (porter st2) = Some (EListener l)).
Proof.
  split.
  - intros cs dst sn st q f P' p st' Hsn Hsh Hres Hfresh Hrun.
    destruct (DialStream_cases _ _ _ _ _ _ _ _ _ Hsn Hsh Hres Hrun)
      as (-> & Hp & _ & s' & req & y' & resp & rest & Hs' & Hcl & Hys & _ & Hla
          & _ & _ & _ & _ & Hy' & _ & _).
    destruct (ReserveEphemeral_inr _ _ _ _ _ _ Hres) as (Hq & Hrange & Hf & HP').
    destruct (release_reserved _ _ _ _ _ _ Hres) as (Hports & _ & _).
    split.
    { intros port. unfold PortValue. rewrite Hp, HP'. simpl.
      destruct (decide (port = q)) as [->|Hne].
      - by rewrite lookup_insert_eq.
      - rewrite lookup_insert_ne by done. split; [|done].
        intros Hl. by destruct (Hfresh port). }
    split; [done|]. split.
    { exists s'. repeat split; auto. by rewrite Hf. }
    rewrite <- Hys in Hy'.
    rewrite (Close_run _ _ _ _ Hs' Hy'), Hcl. simpl. rewrite Hp, Hports.
    repeat split; auto. intros port. unfold PortValue. rewrite Hports.
    apply Hfresh.
  - intros p s y st req st1 st2 Hs Hy Hcl Hread Hwrite.
    destruct (readRequest_cases _ _ _ _ _ _ Hs Hy Hread)
      as (Hp1 & _ & _ & (s1 & Hs1 & Hcl1 & _ & _ & Hok1) & _ & _).
    destruct (Hok1 req eq_refl) as (Hla1 & Hra1 & _).
    destruct (writeResponse_cases _ _ _ _ _ _ Hs1 Hwrite)
      as (Hp2 & _ & (s2 & Hs2 & Hcl2 & _ & _ & Hla2 & Hra2) & Hok2 & _).
    destruct (Hok2 tt eq_refl) as (l & _ & _ & _ & Hpv & _).
    split; [congruence|]. exists s2, l.
    repeat split; congruence.
Qed.

(** C8, as the code has it.  When the port of the stream's local address
    (the request's [DstAddr.Port]) does not resolve in the porter to a
    listener, [writeResponse] fails with [ErrReqNoListener] and changes
    nothing: no response at all is written to the sub-stream, so none with
    [Accepted = false].  A dialer on whose sub-stream no response arrives does
    not get a stream, and when its dial returns an error its reserved port
    [q] is absent from its porter. *)
Theorem no_listener_no_response :
  (forall p req s st,
     streams st !! p = Some s ->
     (forall l, PortValue (Port (lAddr s)) (porter st) <> Some (EListener l)) ->
     writeResponse p req st = (Fail ErrReqNoListener, st)) /\
  (forall cs dst sn st q f P',
     ysessions st !! ys cs = Some sn ->
     ysn_shutdown sn = false ->
     ReserveEphemeral (rand st) (EStream (next_handle st)) (porter st)
     = (inr (q, f), P') ->
     inbound st (next_handle st) = [] ->
     (forall p, fst (DialStream cs dst st) <> Ok p) /\
     (forall e, fst (DialStream cs dst st) = Fail e ->
        PortValue q (porter (snd (DialStream cs dst st))) = None)).
Proof.
  split.
  - intros p req s st Hs Hnl.
    destruct (writeResponse p req st) as [o st'] eqn:Hrun.
    destruct (writeResponse_cases _ _ _ _ _ _ Hs Hrun) as (_ & _ & _ & _ & Hno).
    by destruct (Hno Hnl) as [-> ->].
  - intros cs dst sn st q f P' Hsn Hsh Hres Hin.
    destruct (DialStream cs dst st) as [o st'] eqn:Hrun. simpl. split.
    + intros p ->.
      destruct (DialStream_cases _ _ _ _ _ _ _ _ _ Hsn Hsh Hres Hrun)
        as (-> & _ & _ & s' & req & y' & resp & rest & _ & _ & _ & _ & _ & _
            & _ & Hin' & _).
      congruence.
    + intros e ->.
      destruct (DialStream_cases _ _ _ _ _ _ _ _ _ Hsn Hsh Hres Hrun) as (Hp & _).
      destruct (release_reserved _ _ _ _ _ _ Hres) as (_ & Hq & _).
      unfold PortValue. by rewrite Hp.
Qed.

(** ** The relay on the happy path *)

Lemma try_yClose_fail {A} h e st (o : Outcome A) st' :
  bind (try (yClose h)) (fun _ => fail e) st = (o, st') -> forall a, o <> Ok a.
Proof.
  unfold bind, try. destruct (yClose h st) as [[u|e'|msg] st1];
    intros [= <- <-]; done.
Qed.

(** A forwarded request that comes back with a response: the request was
    written, sealed under the destination session's key, on a sub-stream newly
    opened on that session, and the response read from it was verified. *)
Lemma forwardRequest_Ok s2 req st h resp st' :
  forwardRequest s2 req st = (Ok (h, resp), st') ->
  h = next_handle st /\
  VerifyResp resp (PK (DstAddr req)) (Hash req) = None /\
  porter st' = porter st /\ getter st' = getter st /\
  exists rest,
    inbound st h = CSealed (session_key (ns s2)) (RResp resp) :: rest /\
    ystreams st'
    = <[h := mkYStream rest [CSealed (session_key (ns s2)) (RReq req)] false]>
        (ystreams st).
Proof.
  intros Hrun. unfold forwardRequest, OpenStream in Hrun.
  rewrite !bind_assoc in Hrun.
  destruct (ysessions st !! ys s2) as [sn|] eqn:Hsn.
  2:{ unfold bind at 1, load in Hrun. by rewrite Hsn in Hrun. }
  rewrite (bind_load _ _ _ _ Hsn) in Hrun.
  destruct (ysn_shutdown sn); [discriminate|].
  unfold put_ystream, put_ysession in Hrun. norm_in Hrun.
  unfold bind at 1, try at 1 in Hrun.
  erewrite writeEncryptedGob_run in Hrun by (simpl; apply lookup_insert_eq).
  cbn [y_closed y_rx y_tx] in Hrun.
  unfold bind at 1, try at 1, readRespGob, bind at 1 in Hrun.
  match type of Hrun with
  | context [readEncryptedGob ?a ?b ?c] =>
      destruct (readEncryptedGob_cases a b
                  (mkYStream (inbound st (next_handle st))
                             [CSealed (session_key (ns s2)) (RReq req)] false) c)
        as [(e & He & _)|(c0 & rest & _ & Hrx & He)];
      [simpl; apply lookup_insert_eq| |]; rewrite He in Hrun
  end.
  { by destruct (try_yClose_fail _ _ _ _ _ Hrun (h, resp)). }
  simpl in Hrx.
  destruct c0 as [k r|b];
    [|by destruct (try_yClose_fail _ _ _ _ _ Hrun (h, resp))].
  destruct (Z.eqb_spec k (session_key (ns s2))) as [->|Hk];
    [|by destruct (try_yClose_fail _ _ _ _ _ Hrun (h, resp))].
  destruct r as [q|resp0];
    [by destruct (try_yClose_fail _ _ _ _ _ Hrun (h, resp))|].
  cbn [ret] in Hrun. unfold ret at 1 in Hrun.
  destruct (VerifyResp resp0 (PK (DstAddr req)) (Hash req)) eqn:Hv;
    [by destruct (try_yClose_fail _ _ _ _ _ Hrun (h, resp))|].
  injection Hrun as <- <- <-. simpl.
  repeat split; auto. exists rest. split; [done|].
  by rewrite insert_insert_eq, insert_insert_eq.
Qed.

(** A relay that runs to its end without error: the request that came in on
    [y] was forwarded unchanged on a new sub-stream of the destination
    session, the verified response was written back on [y], and whatever else
    came in on either sub-stream went out on the other one as it was. *)
Lemma handleServerStream_Ok s y y0 st u st' :
  ystreams st !! y = Some y0 ->
  y <> next_handle st ->
  handleServerStream s y st = (Ok u, st') ->
  exists req rest0 s2 resp rest2 y1 y2,
    y_closed y0 = false /\
    y_rx y0 = CSealed (session_key (ns s)) (RReq req) :: rest0 /\
    Verify (clock st) req 0 = None /\ PK (SrcAddr req) = rPK s /\
    getter st (PK (DstAddr req)) = Some s2 /\
    VerifyResp resp (PK (DstAddr req)) (Hash req) = None /\
    inbound st (next_handle st)
    = CSealed (session_key (ns s2)) (RResp resp) :: rest2 /\
    ystreams st' !! next_handle st = Some y2 /\
    y_tx y2 = CSealed (session_key (ns s2)) (RReq req) :: rest0 /\
    ystreams st' !! y = Some y1 /\
    y_tx y1 = y_tx y0 ++ CSealed (session_key (ns s)) (RResp resp) :: rest2.
Proof.
  intros Hy Hne Hrun. unfold handleServerStream, serverReadRequest in Hrun.
  rewrite bind_assoc in Hrun. unfold bind at 1 in Hrun.
  destruct (readReqGob y (ns s) st) as [o1 st1] eqn:Hread.
  destruct (readReqGob_cases _ _ _ _ _ _ Hy Hread) as [_ Hcases].
  destruct o1 as [req|e|msg]; [|discriminate..].
  destruct Hcases as [[_ Hno]|(c & rest0 & Hc & Hrx & -> & Hok)];
    [by destruct (Hno req)|].
  rewrite (Hok req eq_refl) in Hrx. clear Hok.
  norm_in Hrun. cbn [clock set_ystreams] in Hrun.
  destruct (Verify (clock st) req 0) eqn:Hv; [discriminate|].
  destruct (decide (PK (SrcAddr req) = rPK s)) as [Hpk|Hpk]; [|discriminate].
  norm_in Hrun. cbn [getter set_ystreams] in Hrun.
  destruct (getter st (PK (DstAddr req))) as [s2|] eqn:Hg; [|discriminate].
  unfold bind at 1 in Hrun.
  match type of Hrun with
  | context [forwardRequest s2 req ?st1] =>
      destruct (forwardRequest s2 req st1) as [[[h resp]|e|msg] st2] eqn:Hf;
      [|discriminate..]
  end.
  destruct (forwardRequest_Ok _ _ _ _ _ _ Hf)
    as (-> & Hvr & _ & _ & rest2 & Hin & Hys2).
  simpl in Hin, Hys2. cbn [fst snd next_handle set_ystreams] in Hrun.
  unfold defer in Hrun.
  assert (Hy2 : ystreams st2 !! y = Some (mkYStream rest0 (y_tx y0) false)).
  { rewrite Hys2, lookup_insert_ne by done. apply lookup_insert_eq. }
  assert (Hm : bind (writeEncryptedGob y (ns s) (RResp resp))
                 (fun _ => CopyReadWriter y (next_handle st)) st2
               = (Ok tt,
                  set_ystreams
                    (<[next_handle st :=
                         mkYStream []
                           ([CSealed (session_key (ns s2)) (RReq req)] ++ rest0)
                           false]>
                       (<[y := mkYStream []
                                 ((y_tx y0 ++ [CSealed (session_key (ns s)) (RResp resp)])
                                  ++ rest2) false]>
                          (<[y := mkYStream rest0
                                    (y_tx y0 ++ [CSealed (session_key (ns s)) (RResp resp)])
                                    false]> (ystreams st2)))) st2)).
  { unfold bind at 1. erewrite writeEncryptedGob_run by eauto. simpl.
    unfold CopyReadWriter.
    erewrite bind_load by (simpl; apply lookup_insert_eq).
    erewrite bind_load
      by (simpl; rewrite lookup_insert_ne by done; rewrite Hys2;
          apply lookup_insert_eq).
    reflexivity. }
  rewrite Hm in Hrun. cbn [fst snd] in Hrun.
  erewrite yClose_run in Hrun by (simpl; apply lookup_insert_eq).
  injection Hrun as <- <-.
  exists req, rest0, s2, resp, rest2. eexists. eexists.
  do 7 (split; [done|]). simpl.
  rewrite lookup_insert_eq. split; [reflexivity|]. split; [done|].
  rewrite !(lookup_insert_ne _ (next_handle st) y) by done.
  rewrite lookup_insert_eq. split; [reflexivity|]. simpl.
  by rewrite <- app_assoc.
Qed.

(** C2.  [readResponse] turns down a response whose [ReqHash] is not the
    hash of the outstanding request, whose signature does not verify under
    the destination key, or whose [Accepted] is false: it returns an error
    (RequestHashMismatch for the hash, Rejected for an otherwise valid
    response that is not accepted) and the stream is not touched, the
    handshake payload of the response never reaching its noise state.  A
    dial returns a stream only when the response that arrived carries the hash
    of the request it wrote, verifies under [dst.PK] and is accepted.  And the
    relay hands back, to be forwarded to the dialer, only a response that
    passes the same verification. *)
Theorem unverified_response_not_surfaced :
  (forall p req s y resp rest st,
     streams st !! p = Some s ->
     ystreams st !! yStr s = Some y ->
     y_closed y = false ->
     y_rx y = CSealed (session_key (ns (ses s))) (RResp resp) :: rest ->
     ReqHash resp <> Hash req \/
     verify_payload (PK (DstAddr req)) (RespSig resp) (RespDigest resp) = false \/
     Accepted resp = false ->
     exists e,
       fst (readResponse p req st) = Fail e /\
       streams (snd (readResponse p req st)) = streams st /\
       (ReqHash resp <> Hash req -> e = ErrRequestHashMismatch) /\
       (ReqHash resp = Hash req ->
        verify_payload (PK (DstAddr req)) (RespSig resp) (RespDigest resp) = true ->
        e = ErrRejected)) /\
  (forall cs dst st p st',
     DialStream cs dst st = (Ok p, st') ->
     exists req resp rest y',
       ystreams st' !! p = Some y' /\
       y_tx y' = [CSealed (session_key (ns cs)) (RReq req)] /\
       inbound st p = CSealed (session_key (ns cs)) (RResp resp) :: rest /\
       ReqHash resp = Hash req /\
       verify_payload (PK dst) (RespSig resp) (RespDigest resp) = true /\
       Accepted resp = true) /\
  (forall s2 req st h resp st',
     forwardRequest s2 req st = (Ok (h, resp), st') ->
     ReqHash resp = Hash req /\
     verify_payload (PK (DstAddr req)) (RespSig resp) (RespDigest resp) = true /\
     Accepted resp = true).
Proof.
  split; [|split].
  - intros p req s y resp rest st Hs Hy Hc Hrx Hbad.
    unfold readResponse. rewrite (bind_load _ _ _ _ Hs).
    erewrite bind_Ok by (eapply readRespGob_run; eauto).
    unfold VerifyResp.
    destruct (Z.eqb_spec (ReqHash resp) (Hash req)) as [Hh|Hh]; simpl.
    + destruct (verify_payload _ _ _) eqn:Hv; simpl.
      * destruct (Accepted resp) eqn:Ha; simpl.
        { exfalso. destruct Hbad as [?|[?|?]]; done. }
        exists ErrRejected. repeat split; auto. done.
      * exists ErrInvalidSignature. repeat split; auto; done.
    + exists ErrRequestHashMismatch. repeat split; auto. done.
  - intros cs dst st p st' Hrun.
    destruct (DialStream_Ok_reserved _ _ _ _ _ Hrun)
      as (sn & q & f & P' & Hsn & Hsh & Hres).
    destruct (DialStream_cases _ _ _ _ _ _ _ _ _ Hsn Hsh Hres Hrun)
      as (Hp & _ & _ & s' & req & y' & resp & rest & _ & _ & _ & _ & _ & _
          & _ & Hin & Hv & Hy' & Htx & _).
    apply VerifyResp_None in Hv as (Hh & Hs & Ha).
    exists req, resp, rest, y'. repeat split; auto.
  - intros s2 req st h resp st' Hrun.
    destruct (forwardRequest_Ok _ _ _ _ _ _ Hrun) as (_ & Hv & _).
    by apply VerifyResp_None in Hv.
Qed.

(** ** Addresses of the two ends *)

Lemma writeRequest_Ok_reserved p ra s st req st' :
  streams st !! p = Some s ->
  writeRequest p ra st = (Ok req, st') ->
  exists q f P',
    ReserveEphemeral (rand st) (EStream p) (porter st) = (inr (q, f), P').
Proof.
  intros Hs Hrun.
  destruct (ReserveEphemeral (rand st) (EStream p) (porter st))
    as [[e|[q f]] P'] eqn:Hres; [|by eauto].
  destruct (writeRequest_noport _ ra _ _ _ _ Hs Hres) as (st2 & Hw). congruence.
Qed.

(** C10.  The initiator writes its request on a fresh sub-stream; what it
    wrote arrives at the server, whose relay runs to its end; what the server
    wrote on the sub-stream it opened arrives at the responder, which reads
    the request and answers; the initiator reads the response.  Then the
    initiator's local address is the responder's remote address and the
    initiator's remote address is the responder's local address: the
    initiator's local address is its own key with the ephemeral port it
    reserved, and the responder's addresses are the [DstAddr] and the
    [SrcAddr] of the request, which reached it unchanged. *)
Theorem dial_accept_addresses
  pA sA yA yA1 stA stA1 stA2 dst req
  sS y yS y2 stS stS1
  pB sB yB stB stB1 stB2 req' :
  streams stA !! pA = Some sA ->
  ystreams stA !! yStr sA = Some yA ->
  y_tx yA = [] ->
  writeRequest pA dst stA = (Ok req, stA1) ->
  ystreams stA1 !! yStr sA = Some yA1 ->
  ystreams stS !! y = Some yS ->
  y <> next_handle stS ->
  y_rx yS = y_tx yA1 ->
  handleServerStream sS y stS = (Ok tt, stS1) ->
  ystreams stS1 !! next_handle stS = Some y2 ->
  streams stB !! pB = Some sB ->
  ystreams stB !! yStr sB = Some yB ->
  y_rx yB = y_tx y2 ->
  readRequest pB stB = (Ok req', stB1) ->
  writeResponse pB req' stB1 = (Ok tt, stB2) ->
  readResponse pA req stA1 = (Ok tt, stA2) ->
  exists sA2 sB2 q,
    streams stA2 !! pA = Some sA2 /\ streams stB2 !! pB = Some sB2 /\
    LocalAddr sA2 = RemoteAddr sB2 /\ RemoteAddr sA2 = LocalAddr sB2 /\
    LocalAddr sA2 = mkAddr (lPK (ses sA)) q /\
    PortValue q (porter stA2) = Some (EStream pA) /\
    minEph <= q <= maxPort /\
    req' = req /\
    LocalAddr sB2 = DstAddr req /\ RemoteAddr sB2 = SrcAddr req.
Proof.
  intros HsA HyA HtxA Hw HyA1 HyS Hne Hwire1 Hrelay Hy2 HsB HyB Hwire2
         Hread Hwresp Hrresp.
  destruct (writeRequest_Ok_reserved _ _ _ _ _ _ HsA Hw) as (q & f & P' & Hres).
  destruct (writeRequest_reserved _ _ _ _ _ _ _ _ _ _ HsA HyA Hres Hw)
    as (Hp1 & _ & (sA1 & HsA1 & _ & HysA1 & HsesA1 & Hok1) & (y' & Hy' & _ & Htx1)).
  destruct (Hok1 req eq_refl) as (Hla1 & Hra1 & _ & Hreq).
  destruct (Htx1 req eq_refl) as (_ & Htx1').
  rewrite HyA1 in Hy'. injection Hy' as <-.
  rewrite HtxA in Htx1'. simpl in Htx1'. rewrite Htx1' in Hwire1.
  destruct (handleServerStream_Ok _ _ _ _ _ _ HyS Hne Hrelay)
    as (req0 & rest0 & s2 & resp & rest2 & y1 & y2' & _ & Hrx0 & _ & _ & _ & _
        & _ & Hy2' & Htx2 & _).
  rewrite Hrx0 in Hwire1. injection Hwire1 as _ <- ->.
  rewrite Hy2 in Hy2'. injection Hy2' as <-.
  rewrite Htx2 in Hwire2.
  destruct (readRequest_cases _ _ _ _ _ _ HsB HyB Hread)
    as (_ & _ & _ & (sB1 & HsB1 & _ & _ & _ & HokB) & _ & HrxB).
  destruct (HokB req' eq_refl) as (HlaB & HraB & _).
  destruct (HrxB req' eq_refl) as (rest & _ & HrxB' & _).
  rewrite HrxB' in Hwire2. injection Hwire2 as _ -> _.
  destruct (writeResponse_cases _ _ _ _ _ _ HsB1 Hwresp)
    as (_ & _ & (sB2 & HsB2 & _ & _ & _ & HlaB2 & HraB2) & _).
  rewrite <- HysA1 in HyA1.
  destruct (readResponse_cases _ _ _ _ _ _ _ HsA1 HyA1 Hrresp)
    as (Hp2 & _ & (sA2 & HsA2 & _ & _ & _ & HlaA2 & HraA2) & _).
  destruct (ReserveEphemeral_inr _ _ _ _ _ _ Hres) as (_ & Hrange & _ & HP').
  assert (Hsrc : SrcAddr req0 = mkAddr (lPK (ses sA)) q) by (by rewrite Hreq).
  assert (Hdst : DstAddr req0 = dst) by (by rewrite Hreq).
  exists sA2, sB2, q. unfold LocalAddr, RemoteAddr.
  repeat split; try congruence; try apply Hrange.
  unfold PortValue. rewrite Hp2, Hp1, HP'. simpl. apply lookup_insert_eq.
Qed.

(** ** What [Write] puts on the wire *)

(** [Stream.Write] hands its bytes to the sub-stream as they are. *)
Lemma Write_raw p s y b st :
  streams st !! p = Some s ->
  ystreams st !! yStr s = Some y ->
  y_closed y = false ->
  Write p b st
  = (Ok (length b),
     set_ystreams (<[yStr s := mkYStream (y_rx y) (y_tx y ++ [CRaw b]) false]>
                     (ystreams st)) st).
Proof.
  intros Hs Hy Hc. unfold Write, yWrite.
  rewrite (bind_load _ _ _ _ Hs), (bind_load _ _ _ _ Hy). by rewrite Hc.
Qed.

(** ** Further properties of [stream.go] *)

(** [readRequest] turns down a request that does not verify with
    [ErrReqInvalidTimestamp], whatever the verification found wrong, and one
    that verifies but names another destination key than the session's own
    with [ErrReqInvalidDstPK]; in both cases no field of the stream is set
    and the porter is not touched. *)
Theorem readRequest_rejects p s y req rest st :
  streams st !! p = Some s ->
  ystreams st !! yStr s = Some y ->
  y_closed y = false ->
  y_rx y = CSealed (session_key (ns (ses s))) (RReq req) :: rest ->
  Verify (clock st) req 0 <> None \/ PK (DstAddr req) <> lPK (ses s) ->
  fst (readRequest p st)
  = Fail (match Verify (clock st) req 0 with
          | Some _ => ErrReqInvalidTimestamp
          | None => ErrReqInvalidDstPK
          end) /\
  streams (snd (readRequest p st)) = streams st /\
  porter (snd (readRequest p st)) = porter st.
Proof.
  intros Hs Hy Hc Hrx Hbad.
  assert (Hrun : readRequest p st
                 = (Fail (match Verify (clock st) req 0 with
                          | Some _ => ErrReqInvalidTimestamp
                          | None => ErrReqInvalidDstPK
                          end),
                    set_ystreams (<[yStr s := mkYStream rest (y_tx y) false]> (ystreams st))
                                 st)).
  { unfold readRequest.
    rewrite (bind_load _ _ _ _ Hs). unfold bind at 1.
    rewrite (readReqGob_run _ _ _ _ _ _ Hy Hc Hrx).
    rewrite bind_gets. cbn [clock set_ystreams].
    destruct (Verify (clock st) req 0) as [e|]; [done|].
    destruct Hbad as [Hbad|Hbad]; [done|]. by rewrite decide_False. }
  rewrite Hrun. done.
Qed.

(** [writeResponse] writes the accepting response before it hands the stream
    to the listener: when the listener is closed or its inbox is full the call
    fails, the listener gets nothing, and the response that says Accepted is
    on the sub-stream all the same, which is left open. *)
Theorem response_written_before_delivery p req s n msg l lis y st :
  streams st !! p = Some s ->
  PortValue (Port (lAddr s)) (porter st) = Some (EListener l) ->
  listeners st !! l = Some lis ->
  s_ns s = Some n ->
  fst (MakeHandshakeMessage n) = inr msg ->
  ystreams st !! yStr s = Some y ->
  y_closed y = false ->
  fst (writeResponse p req st)
  = (if l_closed lis then Fail ErrListenerClosed
     else if (l_cap lis <=? length (l_inbox lis))%nat then Fail ErrBusyListener
          else Ok tt) /\
  ystreams (snd (writeResponse p req st)) !! yStr s
  = Some (mkYStream (y_rx y)
            (y_tx y ++ [CSealed (session_key (ns (ses s)))
                          (RResp (SignResp (lSK (ses s)) (mkResp (Hash req) true msg 0)))])
            false) /\
  (fst (writeResponse p req st) <> Ok tt ->
   listeners (snd (writeResponse p req st)) = listeners st).
Proof.
  intros Hs Hpv Hl Hn Hmsg Hy Hc.
  destruct (writeResponse p req st) as [o st'] eqn:Hrun. cbn [fst snd].
  unfold writeResponse in Hrun.
  rewrite (bind_load _ _ _ _ Hs), bind_gets, Hpv in Hrun.
  unfold bind at 1 in Hrun.
  rewrite (makeHandshakeMessage_run _ _ _ _ Hs Hn), Hmsg in Hrun.
  unfold bind at 1 in Hrun.
  erewrite writeEncryptedGob_run in Hrun by (simpl; exact Hy).
  rewrite Hc in Hrun. unfold introduceStream in Hrun.
  erewrite bind_load in Hrun by (simpl; exact Hl).
  destruct (l_closed lis).
  { injection Hrun as <- <-. simpl. by rewrite lookup_insert_eq. }
  destruct (l_cap lis <=? length (l_inbox lis))%nat.
  { injection Hrun as <- <-. simpl. by rewrite lookup_insert_eq. }
  injection Hrun as <- <-. simpl. by rewrite lookup_insert_eq.
Qed.

(** [writeRequest] reserves the port before it builds the noise state: when
    [noise.New] fails, [prepareFields] panics instead of returning an error,
    nothing is written, and the port stays reserved for the stream, whose
    release closure is set. *)
Theorem writeRequest_panic_keeps_port p ra s st q f P' e :
  streams st !! p = Some s ->
  ReserveEphemeral (rand st) (EStream p) (porter st) = (inr (q, f), P') ->
  noise_New HandshakeKK (mkConfig (lPK (ses s)) (lSK (ses s)) (PK ra) true) = inl e ->
  (exists msg, fst (writeRequest p ra st) = Panic msg) /\
  porter (snd (writeRequest p ra st)) = P' /\
  PortValue q (porter (snd (writeRequest p ra st))) = Some (EStream p) /\
  (exists s', streams (snd (writeRequest p ra st)) !! p = Some s' /\
              close s' = Some f /\ s_ns s' = s_ns s) /\
  ystreams (snd (writeRequest p ra st)) = ystreams st.
Proof.
  intros Hs Hres Hnew.
  destruct (writeRequest p ra st) as [o st'] eqn:Hrun. cbn [fst snd].
  unfold writeRequest in Hrun.
  rewrite !bind_gets, Hres, bind_modify in Hrun. cbn [fst snd] in Hrun.
  unfold bind at 1 in Hrun.
  erewrite set_close_run in Hrun by (simpl; exact Hs).
  erewrite bind_load in Hrun by (simpl; apply lookup_insert_eq).
  unfold bind at 1 in Hrun.
  erewrite prepareFields_run in Hrun by (simpl; apply lookup_insert_eq).
  cbn [ses lPK lSK] in Hrun. rewrite Hnew in Hrun.
  injection Hrun as <- <-. simpl.
  destruct (ReserveEphemeral_inr _ _ _ _ _ _ Hres) as (_ & _ & _ & ->).
  split; [by eexists|]. split; [done|].
  split; [unfold PortValue; simpl; apply lookup_insert_eq|].
  split; [|done]. eexists. rewrite lookup_insert_eq. done.
Qed.

(** ** Further properties of [session.go] *)

Lemma try_yClose_fail_run {A} h y e st :
  ystreams st !! h = Some y ->
  bind (try (yClose h)) (fun _ => (fail e : Go A)) st = (Fail e, yclosed h y st).
Proof. intros Hy. unfold bind, try. by rewrite (yClose_run _ _ _ Hy). Qed.

(** The runs of [forwardRequest] that do not return a response. *)
Lemma forwardRequest_cases s2 req sn st o st' :
  ysessions st !! ys s2 = Some sn ->
  forwardRequest s2 req st = (o, st') ->
  match o with
  | Ok _ => True
  | Fail e =>
      (ysn_shutdown sn = true /\ e = ErrSessionShutdown /\ st' = st) \/
      (ysn_shutdown sn = false /\
       porter st' = porter st /\
       trace st' = trace st ++ [EvYClose (next_handle st)] /\
       exists rx',
         ystreams st'
         = <[next_handle st :=
               mkYStream rx' [CSealed (session_key (ns s2)) (RReq req)] true]>
             (ystreams st))
  | Panic _ => False
  end.
Proof.
  intros Hsn Hrun. unfold forwardRequest, OpenStream in Hrun.
  rewrite !bind_assoc in Hrun.
  rewrite (bind_load _ _ _ _ Hsn) in Hrun.
  destruct (ysn_shutdown sn) eqn:Hsh.
  { injection Hrun as <- <-. by left. }
  unfold put_ystream, put_ysession in Hrun. norm_in Hrun.
  unfold bind at 1, try at 1 in Hrun.
  erewrite writeEncryptedGob_run in Hrun by (simpl; apply lookup_insert_eq).
  cbn [y_closed y_rx y_tx] in Hrun.
  unfold bind at 1, try at 1, readRespGob, bind at 1 in Hrun.
  assert (Hleaf : forall e rx' st1,
            ystreams st1
            = <[next_handle st :=
                  mkYStream rx' [CSealed (session_key (ns s2)) (RReq req)] false]>
                (ystreams st) ->
            porter st1 = porter st -> trace st1 = trace st ->
            bind (try (yClose (next_handle st)))
                 (fun _ => (fail e : Go (nat * StreamDialResponse))) st1 = (o, st') ->
            match o with
            | Ok _ => True
            | Fail e =>
                (false = true /\ e = ErrSessionShutdown /\ st' = st) \/
                (false = false /\
                 porter st' = porter st /\
                 trace st' = trace st ++ [EvYClose (next_handle st)] /\
                 exists rx',
                   ystreams st'
                   = <[next_handle st :=
                         mkYStream rx' [CSealed (session_key (ns s2)) (RReq req)] true]>
                       (ystreams st))
            | Panic _ => False
            end).
  { intros e rx' st1 Hys Hp Ht Hr.
    erewrite try_yClose_fail_run in Hr by (rewrite Hys; apply lookup_insert_eq).
    injection Hr as <- <-. right. simpl. rewrite Hp, Ht, Hys.
    do 3 (split; [done|]). exists rx'. by rewrite insert_insert_eq. }
  match type of Hrun with
  | context [readEncryptedGob ?a ?b ?c] =>
      destruct (readEncryptedGob_cases a b
                  (mkYStream (inbound st (next_handle st))
                             [CSealed (session_key (ns s2)) (RReq req)] false) c)
        as [(e & He & _)|(c0 & rest & _ & Hrx & He)];
      [simpl; apply lookup_insert_eq| |]; rewrite He in Hrun
  end.
  { eapply Hleaf; [| | |exact Hrun]; simpl; [|done..].
    by rewrite insert_insert_eq. }
  simpl in Hrx.
  destruct c0 as [k r|b]; cbv beta iota in Hrun.
  2:{ eapply Hleaf; [| | |exact Hrun]; simpl; [|done..].
      by rewrite !insert_insert_eq. }
  destruct (Z.eqb_spec k (session_key (ns s2))) as [->|Hk].
  2:{ eapply Hleaf; [| | |exact Hrun]; simpl; [|done..].
      by rewrite !insert_insert_eq. }
  destruct r as [q|resp0]; cbv beta iota in Hrun.
  { eapply Hleaf; [| | |exact Hrun]; simpl; [|done..].
    by rewrite !insert_insert_eq. }
  unfold ret at 1 in Hrun.
  destruct (VerifyResp resp0 (PK (DstAddr req)) (Hash req)) eqn:Hv.
  { eapply Hleaf; [| | |exact Hrun]; simpl; [|done..].
    by rewrite !insert_insert_eq. }
  by injection Hrun as <- <-.
Qed.

(** [forwardRequest] never hands back a sub-stream with an error and never
    leaves one open behind an error: when it fails, either the destination
    session was shut down and nothing was opened, or the sub-stream it opened
    (the request is the only thing written on it) is closed, by one call of
    [Close]; it does not panic on a session that exists. *)
Theorem forwardRequest_failure_closes s2 req sn st :
  ysessions st !! ys s2 = Some sn ->
  (forall msg, fst (forwardRequest s2 req st) <> Panic msg) /\
  (forall e, fst (forwardRequest s2 req st) = Fail e ->
     (ysn_shutdown sn = true /\ e = ErrSessionShutdown /\
      snd (forwardRequest s2 req st) = st) \/
     (ysn_shutdown sn = false /\
      trace (snd (forwardRequest s2 req st)) = trace st ++ [EvYClose (next_handle st)] /\
      exists y',
        ystreams (snd (forwardRequest s2 req st)) !! next_handle st = Some y' /\
        y_tx y' = [CSealed (session_key (ns s2)) (RReq req)] /\
        y_closed y' = true)).
Proof.
  intros Hsn. destruct (forwardRequest s2 req st) as [o st'] eqn:Hrun.
  pose proof (forwardRequest_cases _ _ _ _ _ _ Hsn Hrun) as Hc. cbn [fst snd].
  split.
  - intros msg ->. exact Hc.
  - intros e ->. destruct Hc as [Hc|(Hsh & _ & Ht & rx' & Hys)]; [by left|].
    right. do 2 (split; [done|]). eexists. rewrite Hys, lookup_insert_eq. done.
Qed.

(** What a run of [handleServerStream] leaves of the sub-streams. *)
Lemma handleServerStream_cases s y y0 st o st' :
  ystreams st !! y = Some y0 ->
  ystreams st !! next_handle st = None ->
  (forall pk s2, getter st pk = Some s2 -> is_Some (ysessions st !! ys s2)) ->
  handleServerStream s y st = (o, st') ->
  (forall msg, o <> Panic msg) /\
  is_Some (ystreams st' !! y) /\
  (forall h, h <> y -> h <> next_handle st -> ystreams st' !! h = ystreams st !! h) /\
  (forall y2, ystreams st' !! next_handle st = Some y2 -> y_closed y2 = true).
Proof.
  intros Hy Hfresh Hget Hrun.
  assert (Hne : y <> next_handle st) by (intros ->; by rewrite Hfresh in Hy).
  assert (Hsame : forall o1 : Outcome unit,
            (forall msg, o1 <> Panic msg) ->
            (forall msg, o1 <> Panic msg) /\
            is_Some (ystreams st !! y) /\
            (forall h, h <> y -> h <> next_handle st ->
               ystreams st !! h = ystreams st !! h) /\
            (forall y2, ystreams st !! next_handle st = Some y2 -> y_closed y2 = true)).
  { intros o1 Ho1. split; [done|]. split; [by rewrite Hy|]. split; [done|].
    intros y2. by rewrite Hfresh. }
  assert (Hread : forall (o1 : Outcome unit) rest0,
            (forall msg, o1 <> Panic msg) ->
            (forall msg, o1 <> Panic msg) /\
            is_Some (<[y := mkYStream rest0 (y_tx y0) false]> (ystreams st) !! y) /\
            (forall h, h <> y -> h <> next_handle st ->
               <[y := mkYStream rest0 (y_tx y0) false]> (ystreams st) !! h
               = ystreams st !! h) /\
            (forall y2,
               <[y := mkYStream rest0 (y_tx y0) false]> (ystreams st) !! next_handle st
               = Some y2 -> y_closed y2 = true)).
  { intros o1 rest0 Ho1. split; [done|]. split; [by rewrite lookup_insert_eq|].
    split; [intros h Hh _; by rewrite lookup_insert_ne|].
    intros y2. rewrite lookup_insert_ne by done. by rewrite Hfresh. }
  unfold handleServerStream, serverReadRequest in Hrun.
  rewrite bind_assoc in Hrun. unfold bind at 1 in Hrun.
  destruct (readReqGob y (ns s) st) as [o1 st1] eqn:Hrd.
  destruct (readReqGob_cases _ _ _ _ _ _ Hy Hrd) as [Hnp Hcases].
  destruct o1 as [req|e|msg]; [| |by destruct (Hnp msg)].
  2:{ injection Hrun as <- <-.
      destruct Hcases as [[-> _]|(c & rest0 & _ & _ & -> & _)];
        [by apply Hsame|by apply Hread]. }
  destruct Hcases as [[_ Hno]|(c & rest0 & Hc & Hrx & -> & Hok)];
    [by destruct (Hno req)|].
  clear Hok Hnp Hsame.
  norm_in Hrun. cbn [clock set_ystreams] in Hrun.
  destruct (Verify (clock st) req 0) eqn:Hv.
  { injection Hrun as <- <-. by apply Hread. }
  destruct (decide (PK (SrcAddr req) = rPK s)) as [Hpk|Hpk].
  2:{ injection Hrun as <- <-. by apply Hread. }
  norm_in Hrun. cbn [getter set_ystreams] in Hrun.
  destruct (getter st (PK (DstAddr req))) as [s2|] eqn:Hg.
  2:{ injection Hrun as <- <-. by apply Hread. }
  destruct (Hget _ _ Hg) as [sn2 Hsn2].
  unfold bind at 1 in Hrun.
  match type of Hrun with
  | context [forwardRequest s2 req ?st1] =>
      destruct (forwardRequest s2 req st1) as [[[h resp]|e|msg] st2] eqn:Hf;
      pose proof (forwardRequest_cases s2 req sn2 st1 _ _ Hsn2 Hf) as Hfc
  end; [| |done].
  2:{ injection Hrun as <- <-. simpl in Hfc.
      destruct Hfc as [(_ & _ & ->)|(_ & _ & _ & rx' & ->)]; [by apply Hread|].
      split; [done|]. split; [|split].
      - rewrite lookup_insert_ne by done. by rewrite lookup_insert_eq.
      - intros h0 Hh0 Hh1. by rewrite !lookup_insert_ne.
      - intros y2. rewrite lookup_insert_eq. by intros [= <-]. }
  clear Hfc. destruct (forwardRequest_Ok _ _ _ _ _ _ Hf)
    as (-> & Hvr & _ & _ & rest2 & Hin & Hys2).
  simpl in Hin, Hys2. cbn [fst snd next_handle set_ystreams] in Hrun.
  unfold defer in Hrun.
  assert (Hy2 : ystreams st2 !! y = Some (mkYStream rest0 (y_tx y0) false)).
  { rewrite Hys2, lookup_insert_ne by done. apply lookup_insert_eq. }
  assert (Hm : bind (writeEncryptedGob y (ns s) (RResp resp))
                 (fun _ => CopyReadWriter y (next_handle st)) st2
               = (Ok tt,
                  set_ystreams
                    (<[next_handle st :=
                         mkYStream []
                           ([CSealed (session_key (ns s2)) (RReq req)] ++ rest0)
                           false]>
                       (<[y := mkYStream []
                                 ((y_tx y0 ++ [CSealed (session_key (ns s)) (RResp resp)])
                                  ++ rest2) false]>
                          (<[y := mkYStream rest0
                                    (y_tx y0 ++ [CSealed (session_key (ns s)) (RResp resp)])
                                    false]> (ystreams st2)))) st2)).
  { unfold bind at 1. erewrite writeEncryptedGob_run by eauto. simpl.
    unfold CopyReadWriter.
    erewrite bind_load by (simpl; apply lookup_insert_eq).
    erewrite bind_load
      by (simpl; rewrite lookup_insert_ne by done; rewrite Hys2;
          apply lookup_insert_eq).
    reflexivity. }
  rewrite Hm in Hrun. cbn [fst snd] in Hrun.
  erewrite yClose_run in Hrun by (simpl; apply lookup_insert_eq).
  injection Hrun as <- <-. simpl. rewrite Hys2.
  split; [done|]. split; [|split].
  - rewrite !(lookup_insert_ne _ (next_handle st) y) by done.
    by rewrite lookup_insert_eq.
  - intros h0 Hh0 Hh1. by rewrite !lookup_insert_ne.
  - intros y2. rewrite lookup_insert_eq. by intros [= <-].
Qed.

(** The goroutine of [AcceptServerStream] leaves no sub-stream open: however
    [handleServerStream] ends, the sub-stream it served is closed, a
    sub-stream it opened to the destination session is closed, every other
    sub-stream is as before, and the error is logged, not returned. *)
Theorem serveStream_closes s y y0 st :
  ystreams st !! y = Some y0 ->
  ystreams st !! next_handle st = None ->
  (forall pk s2, getter st pk = Some s2 -> is_Some (ysessions st !! ys s2)) ->
  (exists err, fst (serveStream s y st) = Ok err) /\
  (exists y', ystreams (snd (serveStream s y st)) !! y = Some y' /\
              y_closed y' = true) /\
  (forall h, h <> y -> h <> next_handle st ->
     ystreams (snd (serveStream s y st)) !! h = ystreams st !! h) /\
  (forall y2, ystreams (snd (serveStream s y st)) !! next_handle st = Some y2 ->
     y_closed y2 = true).
Proof.
  intros Hy Hfresh Hget.
  assert (Hne : y <> next_handle st) by (intros ->; by rewrite Hfresh in Hy).
  destruct (handleServerStream s y st) as [o st1] eqn:Hh.
  destruct (handleServerStream_cases _ _ _ _ _ _ Hy Hfresh Hget Hh)
    as (Hnp & [y1 Hy1] & Hoth & Hnew).
  unfold serveStream, bind, try. rewrite Hh.
  destruct o as [u|e|msg]; [| |by destruct (Hnp msg)];
    rewrite (yClose_run _ _ _ Hy1); simpl.
  all: split; [by eexists|]; split; [eexists; by rewrite lookup_insert_eq|].
  all: split; [intros h Hh0 Hh1; rewrite lookup_insert_ne by done; by apply Hoth|].
  all: intros y2; rewrite lookup_insert_ne by done; apply Hnew.
Qed.

(** A verified request for a destination key that has no session with the
    server ends the relay with [ErrReqNoSession]: nothing is opened or
    written, and the sub-stream the request came in on is closed. *)
Theorem unknown_destination_no_session s y y0 req rest st :
  ystreams st !! y = Some y0 ->
  y_closed y0 = false ->
  y_rx y0 = CSealed (session_key (ns s)) (RReq req) :: rest ->
  Verify (clock st) req 0 = None ->
  PK (SrcAddr req) = rPK s ->
  getter st (PK (DstAddr req)) = None ->
  fst (serveStream s y st) = Ok (Some ErrReqNoSession) /\
  ystreams (snd (serveStream s y st))
  = <[y := mkYStream rest (y_tx y0) true]> (ystreams st) /\
  ysessions (snd (serveStream s y st)) = ysessions st /\
  next_handle (snd (serveStream s y st)) = next_handle st.
Proof.
  intros Hy Hc Hrx Hv Hpk Hg.
  assert (Hh : handleServerStream s y st
               = (Fail ErrReqNoSession,
                  set_ystreams (<[y := mkYStream rest (y_tx y0) false]> (ystreams st)) st)).
  { unfold handleServerStream. unfold bind at 1.
    erewrite serverReadRequest_run by eauto.
    rewrite Hv, decide_True by done. rewrite bind_gets. cbn [getter set_ystreams].
    by rewrite Hg. }
  unfold serveStream, try, bind. rewrite Hh.
  erewrite yClose_run by (simpl; apply lookup_insert_eq). simpl.
  by rewrite insert_insert_eq.
Qed.

(** After [Session.Close], the streams of the session are of no use: [Write]
    and [Read] on them fail, and the session opens and accepts no further
    stream. *)
Theorem closed_session_refuses_io s sn p str y b n st :
  ysessions st !! ys s = Some sn ->
  streams st !! p = Some str ->
  yStr str ∈ ysn_streams sn ->
  ystreams st !! yStr str = Some y ->
  fst (Write p b (snd (SessionClose s st))) = Fail ErrStreamClosed /\
  fst (Read p n (snd (SessionClose s st))) = Fail ErrStreamClosed /\
  fst (newInitiatingStream s (snd (SessionClose s st))) = Fail ErrSessionShutdown /\
  fst (newRespondingStream s (snd (SessionClose s st))) = Fail ErrSessionShutdown.
Proof.
  intros Hsn Hs Hin Hy.
  destruct (close_all_lookup (ysn_streams sn) (ystreams st) _ _ Hy)
    as (y' & Hy' & _ & _ & Hcl).
  specialize (Hcl (or_introl Hin)).
  assert (Hst : exists st',
            SessionClose s st = (Ok tt, st') /\ streams st' = streams st /\
            ystreams st' = close_all (ysn_streams sn) (ystreams st) /\
            exists sn', ysessions st' !! ys s = Some sn' /\ ysn_shutdown sn' = true).
  { unfold SessionClose, GoAway, ysClose. run. rewrite Hsn. simpl.
    rewrite lookup_insert_eq. simpl. eexists. split; [reflexivity|]. simpl.
    do 2 (split; [done|]). eexists. by rewrite lookup_insert_eq. }
  destruct Hst as (st' & -> & Hss & Hys & sn' & Hsn' & Hsh). cbn [snd].
  rewrite <- Hss in Hs. rewrite <- Hys in Hy'.
  split; [|split; [|split]].
  - unfold Write, yWrite.
    rewrite (bind_load _ _ _ _ Hs), (bind_load _ _ _ _ Hy'), Hcl. done.
  - unfold Read, yRead.
    rewrite (bind_load _ _ _ _ Hs), (bind_load _ _ _ _ Hy'), Hcl. done.
  - unfold newInitiatingStream, OpenStream.
    rewrite bind_assoc, (bind_load _ _ _ _ Hsn'), Hsh. done.
  - unfold newRespondingStream, AcceptStream.
    rewrite bind_assoc, (bind_load _ _ _ _ Hsn'), Hsh. done.
Qed.

(** A session bring-up that fails on [noise.New] or on the handshake returns
    that error and starts no multiplexer; the connection holds what the
    handshake left of it. *)
Theorem handshake_failure_no_session conn lSK lPK rPK c st :
  conns st !! conn = Some c ->
  (forall e,
     noise_New HandshakeXK (mkConfig lPK lSK rPK true) = inl e ->
     InitiateSession conn lSK lPK rPK st = (Fail e, st)) /\
  (forall n e,
     noise_New HandshakeXK (mkConfig lPK lSK rPK true) = inr n ->
     fst (InitiatorHandshake n (mkBuf []) c) = Some e ->
     fst (InitiateSession conn lSK lPK rPK st) = Fail e /\
     ysessions (snd (InitiateSession conn lSK lPK rPK st)) = ysessions st /\
     conns (snd (InitiateSession conn lSK lPK rPK st))
     = <[conn := snd (snd (InitiatorHandshake n (mkBuf []) c))]> (conns st)) /\
  (forall e,
     noise_New HandshakeXK (mkConfig lPK lSK 0 false) = inl e ->
     RespondSession conn lSK lPK st = (Fail e, st)) /\
  (forall n e,
     noise_New HandshakeXK (mkConfig lPK lSK 0 false) = inr n ->
     fst (ResponderHandshake n (mkBuf []) c) = Some e ->
     fst (RespondSession conn lSK lPK st) = Fail e /\
     ysessions (snd (RespondSession conn lSK lPK st)) = ysessions st /\
     conns (snd (RespondSession conn lSK lPK st))
     = <[conn := snd (snd (ResponderHandshake n (mkBuf []) c))]> (conns st)).
Proof.
  intros Hc. repeat split.
  - intros e Hn. unfold InitiateSession. by rewrite Hn.
  - unfold InitiateSession. rewrite H0, (bind_load _ _ _ _ Hc), bind_modify, H1. done.
  - unfold InitiateSession. rewrite H0, (bind_load _ _ _ _ Hc), bind_modify, H1. done.
  - unfold InitiateSession. rewrite H0, (bind_load _ _ _ _ Hc), bind_modify, H1. done.
  - intros e Hn. unfold RespondSession. by rewrite Hn.
  - unfold RespondSession. rewrite H0, (bind_load _ _ _ _ Hc), bind_modify, H1. done.
  - unfold RespondSession. rewrite H0, (bind_load _ _ _ _ Hc), bind_modify, H1. done.
  - unfold RespondSession. rewrite H0, (bind_load _ _ _ _ Hc), bind_modify, H1. done.
Qed.


End Proofs.

(** * The properties at concrete processes *)

Import Toy.

(** C1 at the input "ping".  After a dial that B accepted, A writes the four
    bytes "ping" to its stream: the sub-stream to the server carries them as
    they are after the sealed request; the relay copies them as they are to
    the sub-stream it opened to B; and B's [Read] returns them.  The bytes
    that cross the server are the user's bytes, sealed under no key. *)
Theorem relay_carries_plaintext :
  fst (Write 1 ping dialedA) = Ok 4%nat /\
  tx_of 1 pingA = [CSealed 100 (RReq reqA); CRaw ping] /\
  fst (serveStream srvA 2 relayS) = Ok None /\
  tx_of 3 relayed = [CSealed 200 (RReq reqA); CRaw ping] /\
  fst (writeResponse 1 reqA (acceptB1 true)) = Ok tt /\
  fst (Read 1 4 (acceptB2 true)) = Ok ping.
Proof. repeat split; vm_compute; reflexivity. Qed.

(** The response turned down by B reaches A: [readResponse] returns
    [ErrRejected] and leaves the stream alone. *)
Lemma unverified_response_not_surfaced_witness :
  exists e,
    fst (readResponse 1 reqA (requestedA [CSealed 100 (RResp respRejected)])) = Fail e /\
    streams (snd (readResponse 1 reqA (requestedA [CSealed 100 (RResp respRejected)])))
    = streams (requestedA [CSealed 100 (RResp respRejected)]) /\
    (ReqHash respRejected <> Hash reqA -> e = ErrRequestHashMismatch) /\
    (ReqHash respRejected = Hash reqA ->
     verify_payload (PK (DstAddr reqA)) (RespSig respRejected) (RespDigest respRejected)
     = true ->
     e = ErrRejected).
Proof.
  eapply (proj1 unverified_response_not_surfaced 1%nat reqA _ _ respRejected []).
  - vm_compute. reflexivity.
  - vm_compute. reflexivity.
  - reflexivity.
  - reflexivity.
  - right. right. reflexivity.
Defined.

(** One byte after the last handshake message (scenario S4): both bring-ups
    fail with HandshakeResidue and start no multiplexer. *)
Lemma handshake_residue_witness :
  (fst (InitiateSession 0 10 10 30 (procConn residue)) = Fail HandshakeResidue /\
   ysessions (snd (InitiateSession 0 10 10 30 (procConn residue)))
   = ysessions (procConn residue)) /\
  (fst (RespondSession 0 30 30 (procConn residue)) = Fail HandshakeResidue /\
   ysessions (snd (RespondSession 0 30 30 (procConn residue)))
   = ysessions (procConn residue)).
Proof.
  split.
  - refine (proj1 (handshake_residue 0%nat 10 10 30 (mkConn residue [])
                     (procConn residue) _) 10 _ _ _);
      vm_compute; reflexivity.
  - refine (proj1 (proj2 (handshake_residue 0%nat 30 30 30 (mkConn residue [])
                            (procConn residue) _)) 30 _ _ _);
      vm_compute; reflexivity.
Defined.

(** C4 as stated fails: a request that claims a foreign source key under a
    signature that does not verify is rejected with [ErrReqInvalidTimestamp],
    not with [ErrReqInvalidSrcPK]. *)
Lemma foreign_source_bad_signature :
  PK (SrcAddr reqForged) <> rPK srvA /\
  Verify (clock (procS [CSealed 100 (RReq reqForged)] [])) reqForged 0
  = Some ErrInvalidSignature /\
  fst (serveStream srvA 2 (procS [CSealed 100 (RReq reqForged)] []))
  = Ok (Some ErrReqInvalidTimestamp) /\
  fst (serveStream srvA 2 (procS [CSealed 100 (RReq reqForged)] []))
  <> Ok (Some ErrReqInvalidSrcPK).
Proof. repeat split; vm_compute; congruence. Qed.

(** A fresh, well-signed request of client 11 sent on A's session is
    rejected with [ErrReqInvalidSrcPK] and goes nowhere. *)
Lemma foreign_source_rejected_witness :
  fst (serveStream srvA 2 (procS [CSealed 100 (RReq reqReplayed)] []))
  = Ok (Some ErrReqInvalidSrcPK) /\
  ystreams (snd (serveStream srvA 2 (procS [CSealed 100 (RReq reqReplayed)] []))) !! 2%nat
  = Some (mkYStream [] [] true) /\
  (forall h, h <> 2%nat ->
     ystreams (snd (serveStream srvA 2 (procS [CSealed 100 (RReq reqReplayed)] []))) !! h
     = ystreams (procS [CSealed 100 (RReq reqReplayed)] []) !! h) /\
  ysessions (snd (serveStream srvA 2 (procS [CSealed 100 (RReq reqReplayed)] [])))
  = ysessions (procS [CSealed 100 (RReq reqReplayed)] []) /\
  next_handle (snd (serveStream srvA 2 (procS [CSealed 100 (RReq reqReplayed)] [])))
  = next_handle (procS [CSealed 100 (RReq reqReplayed)] []).
Proof.
  apply (foreign_source_rejected srvA 2%nat
           (mkYStream [CSealed 100 (RReq reqReplayed)] [] false) reqReplayed []
           (procS [CSealed 100 (RReq reqReplayed)] [])).
  - vm_compute. reflexivity.
  - reflexivity.
  - reflexivity.
  - vm_compute. congruence.
Defined.

(** C5 as stated fails: the stream B accepted is live, it sits in the inbox
    of the listener on port 5000, and it holds no reservation of its own: it
    has no release closure, its local port is the listener's port 5000, and
    the listener's entry is all there is in B's porter. *)
Lemma accepted_stream_reserves_nothing :
  fst (writeResponse 1 reqA (acceptB1 true)) = Ok tt /\
  listeners (acceptB2 true) !! 0%nat = Some (mkListener [1%nat] 64 false) /\
  (exists s, streams (acceptB2 true) !! 1%nat = Some s /\
             close s = None /\ Port (lAddr s) = 5000) /\
  map_to_list (ports (porter (acceptB2 true))) = [(5000, EListener 0)].
Proof.
  split; [vm_compute; reflexivity|]. split; [vm_compute; reflexivity|].
  split; [|vm_compute; reflexivity].
  eexists. split; [vm_compute; reflexivity|]. split; reflexivity.
Qed.

(** The stream A dialed holds port 52000 and nothing else, and closing it
    empties A's porter again. *)
Lemma reservation_per_stream_witness :
  (forall port, PortValue port (porter dialedA) = Some (EStream 1) <-> port = 52000) /\
  minEph <= 52000 <= maxPort /\
  (exists s', streams dialedA !! 1%nat = Some s' /\ close s' = Some freerA /\
              fr_port freerA = 52000 /\ lAddr s' = mkAddr (lPK sesA) 52000) /\
  fst (Close (Some 1%nat) dialedA) = Ok tt /\
  ports (porter (snd (Close (Some 1%nat) dialedA)))
  = ports (porter (procA [CSealed 100 (RResp respB)])) /\
  (forall port,
     PortValue port (porter (snd (Close (Some 1%nat) dialedA))) <> Some (EStream 1)).
Proof.
  eapply (proj1 reservation_per_stream sesA dstB (openSession [])
            (procA [CSealed 100 (RResp respB)]) 52000 freerA _ 1%nat dialedA).
  - vm_compute. reflexivity.
  - reflexivity.
  - vm_compute. reflexivity.
  - intros port. unfold PortValue. simpl. rewrite lookup_empty. discriminate.
  - vm_compute. reflexivity.
Defined.

(** No response arrives: the dial fails with an error after releasing port
    52000 and closing sub-stream 1. *)
Lemma dial_failure_releases_witness :
  PortValue 52000 (porter (snd (DialStream sesA dstB (procA [])))) = None /\
  ports (porter (snd (DialStream sesA dstB (procA [])))) = ports (porter (procA [])) /\
  trace (snd (DialStream sesA dstB (procA [])))
  = trace (procA []) ++ [EvFree freerA; EvYClose (next_handle (procA []))] /\
  exists y', ystreams (snd (DialStream sesA dstB (procA []))) !! next_handle (procA [])
             = Some y' /\ y_closed y' = true.
Proof.
  eapply (dial_failure_releases sesA dstB (openSession []) (procA []) 52000 freerA
            _ ErrEOF).
  - vm_compute. reflexivity.
  - reflexivity.
  - vm_compute. reflexivity.
  - vm_compute. reflexivity.
Defined.

(** C7 as stated fails: after [Session.Close] the porter still maps port
    52000 to the stream of that session. *)
Lemma session_close_keeps_reservation :
  fst (SessionClose sesA dialedA) = Ok tt /\
  PortValue 52000 (porter (snd (SessionClose sesA dialedA))) = Some (EStream 1) /\
  exists s, streams (snd (SessionClose sesA dialedA)) !! 1%nat = Some s /\
            ses s = sesA /\ close s = Some freerA.
Proof.
  split; [vm_compute; reflexivity|]. split; [vm_compute; reflexivity|].
  eexists. split; [vm_compute; reflexivity|]. split; reflexivity.
Qed.

Lemma SessionClose_effect_witness :
  fst (SessionClose sesA dialedA) = Ok tt /\
  porter (snd (SessionClose sesA dialedA)) = porter dialedA /\
  streams (snd (SessionClose sesA dialedA)) = streams dialedA /\
  (exists sn', ysessions (snd (SessionClose sesA dialedA)) !! ys sesA = Some sn' /\
               ysn_goaway sn' = true /\ ysn_shutdown sn' = true) /\
  (forall h y, h ∈ [1%nat] -> ystreams dialedA !! h = Some y ->
     exists y', ystreams (snd (SessionClose sesA dialedA)) !! h = Some y' /\
                y_closed y' = true).
Proof.
  apply (SessionClose_effect sesA (mkYSession 0 true [1%nat] [] false false) dialedA).
  vm_compute. reflexivity.
Defined.

(** C8 as stated fails: with no listener on port 5000, [writeResponse]
    fails with [ErrReqNoListener] and B's sub-stream has transmitted nothing,
    so no response with [Accepted = false]. *)
Lemma no_listener_writes_nothing :
  PortValue 5000 (porter (acceptB1 false)) = None /\
  fst (writeResponse 1 reqA (acceptB1 false)) = Fail ErrReqNoListener /\
  tx_of 1 (acceptB2 false) = [].
Proof. repeat split; vm_compute; reflexivity. Qed.

Lemma no_listener_no_response_witness :
  writeResponse 1 reqA (acceptB1 false) = (Fail ErrReqNoListener, acceptB1 false).
Proof.
  eapply (proj1 no_listener_no_response 1%nat reqA).
  - vm_compute. reflexivity.
  - intros l. vm_compute. discriminate.
Defined.



(** The dial of A to [dstB] through the server, accepted by B's listener on
    port 5000: A is [(10, 52000)] talking to [(20, 5000)], and B the other way
    round. *)
Lemma dial_accept_addresses_witness :
  exists sA2 sB2 q,
    streams respondedA !! 1%nat = Some sA2 /\ streams acceptC2 !! 1%nat = Some sB2 /\
    LocalAddr sA2 = RemoteAddr sB2 /\ RemoteAddr sA2 = LocalAddr sB2 /\
    LocalAddr sA2 = mkAddr (lPK (ses streamA0)) q /\
    PortValue q (porter respondedA) = Some (EStream 1) /\
    minEph <= q <= maxPort /\
    reqA = reqA /\
    LocalAddr sB2 = DstAddr reqA /\ RemoteAddr sB2 = SrcAddr reqA.
Proof.
  eapply (dial_accept_addresses
            1%nat streamA0 (mkYStream inbA [] false) _ (openedA inbA)
            (requestedA inbA) respondedA dstB reqA
            srvA 2%nat _ _ relayS0 relayed0
            1%nat _ _ acceptC0 acceptC1 acceptC2 reqA).
  - vm_compute. reflexivity.
  - vm_compute. reflexivity.
  - reflexivity.
  - vm_compute. reflexivity.
  - vm_compute. reflexivity.
  - vm_compute. reflexivity.
  - vm_compute. discriminate.
  - vm_compute. reflexivity.
  - vm_compute. reflexivity.
  - vm_compute. reflexivity.
  - vm_compute. reflexivity.
  - vm_compute. reflexivity.
  - vm_compute. reflexivity.
  - vm_compute. reflexivity.
  - vm_compute. reflexivity.
  - vm_compute. reflexivity.
Defined.

(** * The whitelists of [dmsgpty] *)

Section Whitelists.
Import Dmsgpty.
Context `{JsonCodec}.

(** ** The in-memory whitelist *)

Lemma memAdd_elem pks (m : memoryWhitelist) pk :
  pk ∈ snd (memAdd pks m) <-> pk ∈ pks \/ pk ∈ m.
Proof.
  unfold memAdd. simpl. revert m.
  induction pks as [|a pks IH]; intros m; simpl.
  - split; [auto|]. intros [Hin|Hin]; [|done]. by apply elem_of_nil in Hin.
  - rewrite IH, elem_of_cons, elem_of_union, elem_of_singleton. tauto.
Qed.

Lemma memRemove_elem pks (m : memoryWhitelist) pk :
  pk ∈ snd (memRemove pks m) <-> (pk ∉ pks) /\ pk ∈ m.
Proof.
  unfold memRemove. simpl. revert m.
  induction pks as [|a pks IH]; intros m; simpl.
  - split; [|tauto]. intros Hin. split; [|done]. apply not_elem_of_nil.
  - rewrite IH, not_elem_of_cons, elem_of_difference, elem_of_singleton. tauto.
Qed.

(** After [Add(pks...)], [Get(pk)] says true exactly for the keys just added
    and the keys that were in before; no error is returned by either. *)
Theorem memAdd_then_Get pks (m : memoryWhitelist) pk :
  fst (memAdd pks m) = None /\
  fst (memGet pk (snd (memAdd pks m)))
  = (bool_decide (pk ∈ pks \/ fst (fst (memGet pk m)) = true), None).
Proof.
  split; [done|]. unfold memGet. cbn [fst snd]. f_equal.
  apply bool_decide_ext. rewrite memAdd_elem, bool_decide_eq_true. tauto.
Qed.

(** After [Remove(pks...)], [Get(pk)] says true exactly for the keys that
    were in before and are not among the removed ones; removing a key that is
    not in is no error. *)
Theorem memRemove_then_Get pks (m : memoryWhitelist) pk :
  fst (memRemove pks m) = None /\
  fst (memGet pk (snd (memRemove pks m)))
  = (bool_decide ((pk ∉ pks) /\ fst (fst (memGet pk m)) = true), None).
Proof.
  split; [done|]. unfold memGet. cbn [fst snd]. f_equal.
  apply bool_decide_ext. rewrite memRemove_elem, bool_decide_eq_true. tauto.
Qed.

Lemma memAll_map (m : memoryWhitelist) :
  fst (fst (memAll m)) = gset_to_gmap true m.
Proof.
  unfold memAll. simpl.
  apply (set_fold_ind_L (fun out X => out = gset_to_gmap true X)).
  - by rewrite gset_to_gmap_empty.
  - intros k X out Hk ->. by rewrite gset_to_gmap_union_singleton.
Qed.

(** [All] answers with a map that holds exactly the keys for which [Get]
    says true, each with the value true, and it leaves the whitelist as it
    is. *)
Theorem memAll_agrees_with_Get (m : memoryWhitelist) pk :
  fst (fst (memAll m)) !! pk
  = (if fst (fst (memGet pk m)) then Some true else None) /\
  snd (fst (memAll m)) = None /\ snd (memAll m) = m.
Proof.
  split; [|done]. rewrite memAll_map, lookup_gset_to_gmap. simpl.
  destruct (decide (pk ∈ m)) as [Hin|Hin].
  - rewrite bool_decide_eq_true_2 by done. by rewrite option_guard_True.
  - rewrite bool_decide_eq_false_2 by done. by rewrite option_guard_False.
Qed.

(** ** The file-backed whitelist *)

Lemma open_reads {A} w rw (fn : gmap PubKey bool -> FS -> (gerror + A) * FS) fs m :
  refuse fs (fileName w) rw = None ->
  reads_as w fs m ->
  open w rw fn fs = fn m (snd (OpenFile (fileName w) rw fs)) /\
  reads_as w (snd (OpenFile (fileName w) rw fs)) m /\
  files (snd (OpenFile (fileName w) rw fs)) !! fileName w
  = Some (default [] (files fs !! fileName w)) /\
  refuse (snd (OpenFile (fileName w) rw fs)) = refuse fs.
Proof.
  intros Hr Hm. unfold open, OpenFile, reads_as in *. rewrite Hr.
  destruct (files fs !! fileName w) as [c|] eqn:Hc; simpl.
  - rewrite Hc. simpl. destruct (0 <? length c)%nat eqn:Hlen.
    + by rewrite Hm.
    + by subst m.
  - rewrite lookup_insert_eq. simpl. by subst m.
Qed.

Lemma OpenFile_files name rw fs :
  refuse fs name rw = None ->
  files (snd (OpenFile name rw fs)) = <[name := default [] (files fs !! name)]> (files fs).
Proof.
  intros Hr. unfold OpenFile. rewrite Hr. simpl.
  destruct (files fs !! name) eqn:Hc; simpl; [|done]. by rewrite insert_id.
Qed.

Lemma jsonGet_run w pk fs m :
  refuse fs (fileName w) false = None ->
  reads_as w fs m ->
  fst (jsonGet w pk fs) = (default false (m !! pk), None) /\
  files (snd (jsonGet w pk fs))
  = <[fileName w := default [] (files fs !! fileName w)]> (files fs) /\
  refuse (snd (jsonGet w pk fs)) = refuse fs /\
  reads_as w (snd (jsonGet w pk fs)) m.
Proof.
  intros Hr Hm. destruct (open_reads w false
    (fun pkMap fs' => (inr (default false (pkMap !! pk)), fs')) fs m Hr Hm)
    as (Ho & Hm' & _ & Hrf).
  unfold jsonGet. rewrite Ho. simpl. split; [done|].
  split; [by apply OpenFile_files|]. done.
Qed.

Lemma jsonAll_run w fs m :
  refuse fs (fileName w) false = None ->
  reads_as w fs m ->
  fst (jsonAll w fs) = (m, None) /\
  files (snd (jsonAll w fs))
  = <[fileName w := default [] (files fs !! fileName w)]> (files fs) /\
  refuse (snd (jsonAll w fs)) = refuse fs /\
  reads_as w (snd (jsonAll w fs)) m.
Proof.
  intros Hr Hm. destruct (open_reads w false
    (fun pkMap fs' => (inr pkMap, fs')) fs m Hr Hm) as (Ho & Hm' & _ & Hrf).
  unfold jsonAll. rewrite Ho. simpl. split; [done|].
  split; [by apply OpenFile_files|]. done.
Qed.

(** [Get] answers with the bool the file holds for the key, false for a key
    the file does not hold, and [All] with the whole map, both without error;
    a missing file reads as empty and is left behind as an empty file; nothing
    else changes. *)
Theorem jsonGet_reads w pk fs m :
  refuse fs (fileName w) false = None ->
  reads_as w fs m ->
  fst (jsonGet w pk fs) = (default false (m !! pk), None) /\
  fst (jsonAll w fs) = (m, None) /\
  files (snd (jsonGet w pk fs))
  = <[fileName w := default [] (files fs !! fileName w)]> (files fs) /\
  files (snd (jsonAll w fs)) = files (snd (jsonGet w pk fs)) /\
  reads_as w (snd (jsonGet w pk fs)) m.
Proof.
  intros Hr Hm.
  destruct (jsonGet_run w pk fs m Hr Hm) as (H1 & H2 & _ & H4).
  destruct (jsonAll_run w fs m Hr Hm) as (H5 & H6 & _).
  rewrite H2, H6. done.
Qed.

Lemma set_all_lookup pks (m : gmap PubKey bool) pk :
  set_all pks m !! pk = if bool_decide (pk ∈ pks) then Some true else m !! pk.
Proof.
  unfold set_all. revert m. induction pks as [|a pks IH]; intros m; simpl.
  - done.
  - rewrite IH.
    destruct (decide (pk = a)) as [->|Hne];
      [rewrite lookup_insert_eq|rewrite lookup_insert_ne by done];
      repeat case_bool_decide; set_solver.
Qed.

Lemma delete_all_lookup pks (m : gmap PubKey bool) pk :
  delete_all pks m !! pk = if bool_decide (pk ∈ pks) then None else m !! pk.
Proof.
  unfold delete_all. revert m. induction pks as [|a pks IH]; intros m; simpl.
  - done.
  - rewrite IH.
    destruct (decide (pk = a)) as [->|Hne];
      [rewrite lookup_delete_eq|rewrite lookup_delete_ne by done];
      repeat case_bool_decide; set_solver.
Qed.

(** What [open] with a [fn] that writes the map [m'] back comes to. *)
Lemma write_back_run w fs m m' :
  codec_ok ->
  refuse fs (fileName w) true = None ->
  reads_as w fs m ->
  fst (open w true (fun _ fs' => write_back w m' fs') fs) = inr tt /\
  files (snd (open w true (fun _ fs' => write_back w m' fs') fs))
  = <[fileName w := write_at0 (json_encode m') (default [] (files fs !! fileName w))]>
      (files fs) /\
  refuse (snd (open w true (fun _ fs' => write_back w m' fs') fs)) = refuse fs /\
  reads_as w (snd (open w true (fun _ fs' => write_back w m' fs') fs)) m'.
Proof.
  intros [Hdec Hne] Hr Hm.
  destruct (open_reads w true (fun _ fs' => write_back w m' fs') fs m Hr Hm)
    as (Ho & _ & Hc & Hrf).
  rewrite Ho. unfold write_back, Encode. unfold bytes in *. rewrite Hc. simpl.
  split; [done|]. split.
  { unfold OpenFile. rewrite Hr. simpl.
    destruct (files fs !! fileName w); simpl; [done|].
    by rewrite insert_insert_eq. }
  split; [done|].
  unfold reads_as. simpl. rewrite lookup_insert_eq. unfold write_at0.
  match goal with |- context [drop ?n ?o] => generalize (drop n o) end.
  intros tail. rewrite Hdec.
  destruct (Nat.ltb_spec 0 (length (json_encode m' ++ tail))) as [_|Hlen]; [done|].
  rewrite length_app in Hlen.
  destruct (json_encode m') eqn:He; [by destruct (Hne m')|simpl in Hlen; lia].
Qed.

Lemma jsonAdd_run w pks fs m :
  codec_ok ->
  refuse fs (fileName w) true = None ->
  reads_as w fs m ->
  fst (jsonAdd w pks fs) = None /\
  files (snd (jsonAdd w pks fs))
  = <[fileName w := write_at0 (json_encode (set_all pks m))
                      (default [] (files fs !! fileName w))]> (files fs) /\
  refuse (snd (jsonAdd w pks fs)) = refuse fs /\
  reads_as w (snd (jsonAdd w pks fs)) (set_all pks m).
Proof.
  intros Hok Hr Hm.
  destruct (open_reads w true
              (fun pkMap fs' => write_back w (set_all pks pkMap) fs') fs m Hr Hm)
    as (Ho & _).
  destruct (open_reads w true
              (fun _ fs' => write_back w (set_all pks m) fs') fs m Hr Hm)
    as (Ho' & _).
  destruct (write_back_run w fs m (set_all pks m) Hok Hr Hm) as (H1 & H2 & H3 & H4).
  unfold jsonAdd. rewrite Ho. rewrite <- Ho'. simpl. rewrite H1. done.
Qed.

Lemma jsonRemove_run w pks fs m :
  codec_ok ->
  refuse fs (fileName w) true = None ->
  reads_as w fs m ->
  fst (jsonRemove w pks fs) = None /\
  files (snd (jsonRemove w pks fs))
  = <[fileName w := write_at0 (json_encode (delete_all pks m))
                      (default [] (files fs !! fileName w))]> (files fs) /\
  refuse (snd (jsonRemove w pks fs)) = refuse fs /\
  reads_as w (snd (jsonRemove w pks fs)) (delete_all pks m).
Proof.
  intros Hok Hr Hm.
  destruct (open_reads w true
              (fun pkMap fs' => write_back w (delete_all pks pkMap) fs') fs m Hr Hm)
    as (Ho & _).
  destruct (open_reads w true
              (fun _ fs' => write_back w (delete_all pks m) fs') fs m Hr Hm)
    as (Ho' & _).
  destruct (write_back_run w fs m (delete_all pks m) Hok Hr Hm) as (H1 & H2 & H3 & H4).
  unfold jsonRemove. rewrite Ho. rewrite <- Ho'. simpl. rewrite H1. done.
Qed.

(** After [Add(pks...)] on a file that reads as [m], [Get(pk)] answers true
    for the keys just added and what [m] holds for the others; neither
    returns an error. *)
Theorem jsonAdd_then_Get w pks pk fs m :
  codec_ok ->
  (forall rw, refuse fs (fileName w) rw = None) ->
  reads_as w fs m ->
  fst (jsonAdd w pks fs) = None /\
  fst (jsonGet w pk (snd (jsonAdd w pks fs)))
  = (if bool_decide (pk ∈ pks) then true else default false (m !! pk), None).
Proof.
  intros Hok Hr Hm.
  destruct (jsonAdd_run w pks fs m Hok (Hr true) Hm) as (H1 & _ & H3 & H4).
  split; [done|].
  destruct (jsonGet_run w pk _ _ ltac:(rewrite H3; apply Hr) H4) as (-> & _).
  rewrite set_all_lookup. by destruct (bool_decide _).
Qed.

(** After [Remove(pks...)] on a file that reads as [m], [Get(pk)] answers
    false for the removed keys and what [m] holds for the others; neither
    returns an error, also when a removed key was not in the file. *)
Theorem jsonRemove_then_Get w pks pk fs m :
  codec_ok ->
  (forall rw, refuse fs (fileName w) rw = None) ->
  reads_as w fs m ->
  fst (jsonRemove w pks fs) = None /\
  fst (jsonGet w pk (snd (jsonRemove w pks fs)))
  = (if bool_decide (pk ∈ pks) then false else default false (m !! pk), None).
Proof.
  intros Hok Hr Hm.
  destruct (jsonRemove_run w pks fs m Hok (Hr true) Hm) as (H1 & _ & H3 & H4).
  split; [done|].
  destruct (jsonGet_run w pk _ _ ltac:(rewrite H3; apply Hr) H4) as (-> & _).
  rewrite delete_all_lookup. by destruct (bool_decide _).
Qed.

Lemma write_at0_length (new old : bytes) :
  length (write_at0 new old) = (length new `max` length old)%nat.
Proof. unfold write_at0. rewrite length_app, length_drop. lia. Qed.

(** [Add] and [Remove] write the new map over the start of the file and do
    not truncate it: the file never gets shorter, the bytes of the old content
    beyond the new encoding stay where they were, and the file still reads as
    the new map. *)
Theorem json_file_not_truncated w pks fs m old :
  codec_ok ->
  refuse fs (fileName w) true = None ->
  reads_as w fs m ->
  files fs !! fileName w = Some old ->
  (exists new,
     files (snd (jsonAdd w pks fs)) !! fileName w = Some new /\
     new = json_encode (set_all pks m) ++ drop (length (json_encode (set_all pks m))) old /\
     (length old <= length new)%nat /\
     reads_as w (snd (jsonAdd w pks fs)) (set_all pks m)) /\
  (exists new,
     files (snd (jsonRemove w pks fs)) !! fileName w = Some new /\
     new = json_encode (delete_all pks m)
           ++ drop (length (json_encode (delete_all pks m))) old /\
     (length old <= length new)%nat /\
     reads_as w (snd (jsonRemove w pks fs)) (delete_all pks m)).
Proof.
  intros Hok Hr Hm Hold. split.
  - destruct (jsonAdd_run w pks fs m Hok Hr Hm) as (_ & H2 & _ & H4).
    eexists. rewrite H2, lookup_insert_eq, Hold. simpl.
    split; [reflexivity|]. split; [done|]. split; [|done].
    fold (write_at0 (json_encode (set_all pks m)) old).
    rewrite write_at0_length. lia.
  - destruct (jsonRemove_run w pks fs m Hok Hr Hm) as (_ & H2 & _ & H4).
    eexists. rewrite H2, lookup_insert_eq, Hold. simpl.
    split; [reflexivity|]. split; [done|]. split; [|done].
    fold (write_at0 (json_encode (delete_all pks m)) old).
    rewrite write_at0_length. lia.
Qed.

(** When [os.OpenFile] refuses the file, every operation returns that error
    behind the prefix of [jsonFileErr], [Get] answers false and [All] no map,
    and the file system is as before. *)
Theorem json_open_refused w fs e pk pks :
  (refuse fs (fileName w) false = Some e ->
   jsonGet w pk fs = ((false, Some ("json file whitelist: " +:+ e)), fs) /\
   jsonAll w fs = ((∅, Some ("json file whitelist: " +:+ e)), fs)) /\
  (refuse fs (fileName w) true = Some e ->
   jsonAdd w pks fs = (Some ("json file whitelist: " +:+ e), fs) /\
   jsonRemove w pks fs = (Some ("json file whitelist: " +:+ e), fs)).
Proof.
  split; intros Hr;
    unfold jsonGet, jsonAll, jsonAdd, jsonRemove, open, OpenFile;
    rewrite Hr; done.
Qed.

(** A file that is not empty and does not decode is never written: [Add] and
    [Remove] return the decoder's error behind the prefix and leave the file
    system as it is, and so do [Get], which answers false, and [All]. *)
Theorem json_corrupt_file_kept w fs c e pk pks :
  (forall rw, refuse fs (fileName w) rw = None) ->
  files fs !! fileName w = Some c ->
  (0 < length c)%nat ->
  json_decode c = inl e ->
  jsonGet w pk fs = ((false, Some ("json file whitelist: " +:+ e)), fs) /\
  jsonAll w fs = ((∅, Some ("json file whitelist: " +:+ e)), fs) /\
  jsonAdd w pks fs = (Some ("json file whitelist: " +:+ e), fs) /\
  jsonRemove w pks fs = (Some ("json file whitelist: " +:+ e), fs).
Proof.
  intros Hr Hc Hlen He. apply Nat.ltb_lt in Hlen.
  unfold jsonGet, jsonAll, jsonAdd, jsonRemove, open, OpenFile.
  unfold bytes in *. rewrite !Hr, !Hc. simpl. rewrite ?Hc. simpl.
  rewrite Hlen, He. done.
Qed.

(** ** The two implementations behind the interface *)

Lemma gset_to_gmap_default (m : memoryWhitelist) pk :
  default false (gset_to_gmap true m !! pk) = bool_decide (pk ∈ m).
Proof.
  rewrite lookup_gset_to_gmap.
  destruct (decide (pk ∈ m)) as [Hin|Hin].
  - rewrite bool_decide_eq_true_2 by done. by rewrite option_guard_True.
  - rewrite bool_decide_eq_false_2 by done. by rewrite option_guard_False.
Qed.

Lemma set_all_gset pks (m : memoryWhitelist) :
  set_all pks (gset_to_gmap true m) = gset_to_gmap true (snd (memAdd pks m)).
Proof.
  apply map_eq. intros pk. rewrite set_all_lookup, !lookup_gset_to_gmap.
  pose proof (memAdd_elem pks m pk) as Hel.
  case_bool_decide as Hin.
  - rewrite option_guard_True by tauto. done.
  - destruct (decide (pk ∈ m)) as [Hm|Hm].
    + rewrite !option_guard_True by tauto. done.
    + rewrite !option_guard_False by tauto. done.
Qed.

Lemma delete_all_gset pks (m : memoryWhitelist) :
  delete_all pks (gset_to_gmap true m) = gset_to_gmap true (snd (memRemove pks m)).
Proof.
  apply map_eq. intros pk. rewrite delete_all_lookup, !lookup_gset_to_gmap.
  pose proof (memRemove_elem pks m pk) as Hel.
  case_bool_decide as Hin.
  - rewrite option_guard_False by tauto. done.
  - destruct (decide (pk ∈ m)) as [Hm|Hm].
    + rewrite !option_guard_True by tauto. done.
    + rewrite !option_guard_False by tauto. done.
Qed.

(** One call on a file that reads as the set [m] answers as the same call on
    the in-memory whitelist [m], and leaves a file that reads as the set the
    in-memory whitelist is left with. *)
Lemma do_call_refines c w fs (m : memoryWhitelist) :
  codec_ok ->
  (forall rw, refuse fs (fileName w) rw = None) ->
  reads_as w fs (gset_to_gmap true m) ->
  exists fs',
    do_call c (mkJsonState w fs) = (fst (do_call c m), mkJsonState w fs') /\
    (forall rw, refuse fs' (fileName w) rw = None) /\
    reads_as w fs' (gset_to_gmap true (snd (do_call c m))).
Proof.
  intros Hok Hr Hm.
  destruct c as [pk| |pks|pks];
    cbv [do_call Get All Add Remove json_whitelist memory_whitelist lift_json jw jfs].
  - destruct (jsonGet_run w pk fs _ (Hr false) Hm) as (H1 & _ & H3 & H4).
    eexists. split; [|split; [|exact H4]].
    + rewrite H1. simpl. by rewrite gset_to_gmap_default.
    + intros rw. rewrite H3. apply Hr.
  - destruct (jsonAll_run w fs _ (Hr false) Hm) as (H1 & _ & H3 & H4).
    eexists. split; [|split; [|exact H4]].
    + cbn [fst snd]. rewrite H1, memAll_map. done.
    + intros rw. rewrite H3. apply Hr.
  - destruct (jsonAdd_run w pks fs _ Hok (Hr true) Hm) as (H1 & _ & H3 & H4).
    eexists. split; [|split].
    + rewrite H1. reflexivity.
    + intros rw. rewrite H3. apply Hr.
    + cbn [fst snd]. rewrite <- set_all_gset. exact H4.
  - destruct (jsonRemove_run w pks fs _ Hok (Hr true) Hm) as (H1 & _ & H3 & H4).
    eexists. split; [|split].
    + rewrite H1. reflexivity.
    + intros rw. rewrite H3. apply Hr.
    + cbn [fst snd]. rewrite <- delete_all_gset. exact H4.
Qed.

(** A caller of the [Whitelist] interface cannot tell the file-backed
    implementation from the in-memory one: on a file that reads as the keys of
    [m] and can be opened, every sequence of calls gets the same answers from
    both. *)
Theorem json_refines_memory cs w fs (m : memoryWhitelist) :
  codec_ok ->
  (forall rw, refuse fs (fileName w) rw = None) ->
  reads_as w fs (gset_to_gmap true m) ->
  fst (do_calls cs (mkJsonState w fs)) = fst (do_calls cs m).
Proof.
  intros Hok. revert fs m.
  induction cs as [|c cs IH]; intros fs m Hr Hm; [done|].
  destruct (do_call_refines c w fs m Hok Hr Hm) as (fs' & Hc & Hr' & Hm').
  cbn [do_calls fst snd]. rewrite Hc. cbn [fst snd].
  by rewrite (IH fs' _ Hr' Hm').
Qed.

End Whitelists.

(** ** The whitelists with the unary codec *)

Lemma dec_nat_enc n rest : Dmsgpty.dec_nat (Dmsgpty.enc_nat n ++ rest) = Some (n, rest).
Proof.
  unfold Dmsgpty.enc_nat. induction n as [|n IH]; simpl; [done|].
  by rewrite IH.
Qed.

Lemma dec_entry_enc e rest :
  Dmsgpty.dec_entry (Dmsgpty.enc_entry e ++ rest) = Some (e, rest).
Proof.
  unfold Dmsgpty.dec_entry, Dmsgpty.enc_entry.
  rewrite <- app_assoc, dec_nat_enc, decode_encode_nat.
  by destruct e as [k [|]].
Qed.

Lemma dec_entries_enc l rest :
  Dmsgpty.dec_entries (length l) (flat_map Dmsgpty.enc_entry l ++ rest) = Some (l, rest).
Proof.
  induction l as [|e l IH]; simpl; [done|].
  by rewrite <- app_assoc, dec_entry_enc, IH.
Qed.

Lemma toy_codec_ok : @Dmsgpty.codec_ok Dmsgpty.toy_codec.
Proof.
  split.
  - intros m tail. simpl. unfold Dmsgpty.toy_decode, Dmsgpty.toy_encode.
    rewrite <- app_assoc, dec_nat_enc, dec_entries_enc.
    by rewrite list_to_map_to_list.
  - intros m. simpl. unfold Dmsgpty.toy_encode, Dmsgpty.enc_nat.
    by destruct (length (map_to_list m)).
Qed.

(** A file that reads as the keys 10 and 20, as [Add] leaves it on an empty
    file system. *)
Lemma jsonGet_reads_witness :
  fst (@Dmsgpty.jsonGet Dmsgpty.toy_codec Dmsgpty.wl 20 Dmsgpty.twoKeysFS)
  = (default false (Dmsgpty.twoKeys !! 20), None) /\
  fst (@Dmsgpty.jsonGet Dmsgpty.toy_codec Dmsgpty.wl 30 Dmsgpty.twoKeysFS) = (false, None).
Proof.
  split.
  - eapply (@jsonGet_reads Dmsgpty.toy_codec Dmsgpty.wl 20 Dmsgpty.twoKeysFS Dmsgpty.twoKeys);
      vm_compute; reflexivity.
  - vm_compute; reflexivity.
Defined.

(** [Add(10, 20)] on an empty file system, then [Get(10)]. *)
Lemma jsonAdd_then_Get_witness :
  fst (@Dmsgpty.jsonAdd Dmsgpty.toy_codec Dmsgpty.wl [10; 20] Dmsgpty.emptyFS) = None /\
  fst (@Dmsgpty.jsonGet Dmsgpty.toy_codec Dmsgpty.wl 10
         (snd (@Dmsgpty.jsonAdd Dmsgpty.toy_codec Dmsgpty.wl [10; 20] Dmsgpty.emptyFS)))
  = (true, None).
Proof.
  apply (@jsonAdd_then_Get Dmsgpty.toy_codec Dmsgpty.wl [10; 20] 10 Dmsgpty.emptyFS ∅
           toy_codec_ok); [intros rw|]; reflexivity.
Defined.

(** [Remove(20, 40)] on the file with the keys 10 and 20, then [Get(20)]:
    key 40 was not in the file. *)
Lemma jsonRemove_then_Get_witness :
  fst (@Dmsgpty.jsonRemove Dmsgpty.toy_codec Dmsgpty.wl [20; 40] Dmsgpty.twoKeysFS) = None /\
  fst (@Dmsgpty.jsonGet Dmsgpty.toy_codec Dmsgpty.wl 20
         (snd (@Dmsgpty.jsonRemove Dmsgpty.toy_codec Dmsgpty.wl [20; 40] Dmsgpty.twoKeysFS)))
  = (false, None).
Proof.
  apply (@jsonRemove_then_Get Dmsgpty.toy_codec Dmsgpty.wl [20; 40] 20 Dmsgpty.twoKeysFS
           Dmsgpty.twoKeys toy_codec_ok); [intros rw; reflexivity|].
  vm_compute; reflexivity.
Defined.

(** [Remove(20)] on the file with the keys 10 and 20 leaves a file as long
    as before, whose tail is what the longer old encoding left there. *)
Lemma json_file_not_truncated_witness :
  exists old new,
    Dmsgpty.files Dmsgpty.twoKeysFS !! Dmsgpty.fileName Dmsgpty.wl = Some old /\
    Dmsgpty.files (snd (@Dmsgpty.jsonRemove Dmsgpty.toy_codec Dmsgpty.wl [20]
                          Dmsgpty.twoKeysFS))
    !! Dmsgpty.fileName Dmsgpty.wl = Some new /\
    (length old <= length new)%nat /\
    (length (@Dmsgpty.json_encode Dmsgpty.toy_codec (Dmsgpty.delete_all [20%Z] Dmsgpty.twoKeys))
     < length new)%nat.
Proof.
  destruct (@json_file_not_truncated Dmsgpty.toy_codec Dmsgpty.wl [20] Dmsgpty.twoKeysFS
              Dmsgpty.twoKeys
              (default [] (Dmsgpty.files Dmsgpty.twoKeysFS !! Dmsgpty.fileName Dmsgpty.wl))
              toy_codec_ok)
    as (_ & new & Hnew & Heq & Hlen & _); [reflexivity|vm_compute; reflexivity|
                                           vm_compute; reflexivity|].
  eexists _, new. split; [vm_compute; reflexivity|]. split; [exact Hnew|].
  split; [exact Hlen|]. rewrite Heq. vm_compute. lia.
Defined.

(** On a file system that opens the file for reading only, [Add] and [Remove]
    fail with the error of [os.OpenFile] and change nothing. *)
Lemma json_open_refused_witness :
  @Dmsgpty.jsonAdd Dmsgpty.toy_codec Dmsgpty.wl [10] Dmsgpty.readonlyFS
  = (Some "json file whitelist: permission denied", Dmsgpty.readonlyFS) /\
  @Dmsgpty.jsonRemove Dmsgpty.toy_codec Dmsgpty.wl [10] Dmsgpty.readonlyFS
  = (Some "json file whitelist: permission denied", Dmsgpty.readonlyFS).
Proof.
  apply (proj2 (@json_open_refused Dmsgpty.toy_codec Dmsgpty.wl Dmsgpty.readonlyFS
                  "permission denied" 10 [10])).
  reflexivity.
Defined.

(** A file that holds one byte that is no encoding stays as it is. *)
Lemma json_corrupt_file_kept_witness :
  @Dmsgpty.jsonAdd Dmsgpty.toy_codec Dmsgpty.wl [10] Dmsgpty.corruptFS
  = (Some "json file whitelist: invalid character", Dmsgpty.corruptFS).
Proof.
  apply (@json_corrupt_file_kept Dmsgpty.toy_codec Dmsgpty.wl Dmsgpty.corruptFS
           [Byte.x02] "invalid character" 10 [10]);
    [intros rw; reflexivity|vm_compute; reflexivity|simpl; lia|reflexivity].
Defined.

(** The same calls on an empty file system and on a new in-memory
    whitelist. *)
Lemma json_refines_memory_witness :
  fst (@Dmsgpty.do_calls _ (@Dmsgpty.json_whitelist Dmsgpty.toy_codec)
         [Dmsgpty.CAdd [10; 20]; Dmsgpty.CGet 10; Dmsgpty.CRemove [10];
          Dmsgpty.CGet 10; Dmsgpty.CAll]
         (Dmsgpty.mkJsonState Dmsgpty.wl Dmsgpty.emptyFS))
  = fst (Dmsgpty.do_calls
           [Dmsgpty.CAdd [10; 20]; Dmsgpty.CGet 10; Dmsgpty.CRemove [10];
            Dmsgpty.CGet 10; Dmsgpty.CAll]
           Dmsgpty.NewMemoryWhitelist).
Proof.
  apply (@json_refines_memory Dmsgpty.toy_codec _ Dmsgpty.wl Dmsgpty.emptyFS
           Dmsgpty.NewMemoryWhitelist toy_codec_ok); [intros rw|]; reflexivity.
Defined.
